(** * A shallow embedding of the UHRP storage server

    The development follows the TypeScript and JavaScript sources:

    - [src/utils/getMetadata.ts]                   -> module [Resolver]
    - [src/utils/storage/types.ts]                 -> module [StorageTypes]
    - [src/utils/storage/providers/gcs.ts]         -> module [GCS]
    - [src/utils/storage/providers/s3.ts]          -> module [S3]
    - the provider factory, [getStorageProvider]   -> module [Storage]
    - [k8s/s3-event-handler/src/event-handler.js]  -> module [EventHandler]

    The modules [ResolverSpec], [ProviderSpec], [StorageSpec] and [HandlerSpec]
    hold the vocabulary of the statements, the modules [Fixtures],
    [ProviderFixtures] and [HandlerFixtures] concrete worlds on which the
    definitions are evaluated; the properties follow.

    Conventions of the embedding.

    - A JavaScript string is a [string]: a sequence of code units below 256.
    - A JavaScript number that the code uses as an integer (seconds, milliseconds,
      byte counts) is a [Z]; the value [NaN] is [None] where a builtin can
      return it.  Decimal texts are read exactly, which agrees with the
      double-precision reading for every integer below 2^53.
    - A JavaScript object used as a dictionary is a [gmap string string].
    - [throw] is the left injection of a sum; [undefined] is [None].
    - Calls that leave the repository (wallet, cloud SDKs, HTTP, queue, clock)
      are fields of a record of the surrounding world, so that every
      definition below can be evaluated on concrete worlds. *)

From Stdlib Require Import ZArith Lia List Ascii.
From stdpp Require Import base option list strings gmap pretty.

Local Open Scope Z_scope.

(** ** JavaScript builtins used by the sources *)

Module JS.

(** The code unit of a character. *)
Definition code (c : ascii) : Z := Z.of_N (N_of_ascii c).

(** [s.startsWith(p)] *)
Fixpoint startsWith (p s : string) : bool :=
  match p, s with
  | EmptyString, _ => true
  | String _ _, EmptyString => false
  | String a p', String b s' => if Ascii.eqb a b then startsWith p' s' else false
  end.

(** [s.substring(n)] for a natural [n]: the text after the first [n] code units. *)
Fixpoint substring (n : nat) (s : string) : string :=
  match n, s with
  | O, _ => s
  | S _, EmptyString => EmptyString
  | S n', String _ s' => substring n' s'
  end.

(** Truthiness of a string: every string but the empty one. *)
Definition truthy (s : string) : bool :=
  match s with EmptyString => false | String _ _ => true end.

(** Truthiness of a possibly undefined string-valued property. *)
Definition truthy_opt (o : option string) : bool :=
  match o with Some s => truthy s | None => false end.

(** [a || b] on strings where [a] may be undefined. *)
Definition or_else (a : option string) (b : string) : string :=
  match a with
  | Some s => if truthy s then s else b
  | None => b
  end.

(** White space skipped by [parseInt] (the code units below 256 of
    ECMAScript's StrWhiteSpaceChar). *)
Definition isWhiteSpace (c : ascii) : bool :=
  let n := code c in
  (n =? 9) || (n =? 10) || (n =? 11) || (n =? 12) || (n =? 13) || (n =? 32) || (n =? 160).

Fixpoint trimStart (s : string) : string :=
  match s with
  | String c s' => if isWhiteSpace c then trimStart s' else s
  | EmptyString => s
  end.

Definition digit (c : ascii) : option Z :=
  let n := code c in
  if (48 <=? n) && (n <=? 57) then Some (n - 48) else None.

(** The value of the longest prefix of decimal digits; [acc] is [None] until a
    digit has been read. *)
Fixpoint digits (s : string) (acc : option Z) : option Z :=
  match s with
  | String c s' =>
      match digit c with
      | Some d => digits s' (Some (10 * default 0 acc + d))
      | None => acc
      end
  | EmptyString => acc
  end.

(** [parseInt(s, 10)]; [None] is [NaN]. *)
Definition parseInt (s : string) : option Z :=
  let s1 := trimStart s in
  let '(sign, s2) :=
    match s1 with
    | String c r =>
        if Ascii.eqb c "-" then (-1, r)
        else if Ascii.eqb c "+" then (1, r)
        else (1, s1)
    | EmptyString => (1, s1)
    end in
  match digits s2 None with
  | Some n => Some (sign * n)
  | None => None
  end.

(** [x || 0] on a number: [NaN] and zero both give [0]. *)
Definition or_zero (x : option Z) : Z := default 0 x.

(** [c.toLowerCase()] on one code unit below 256: A-Z and the Latin-1
    capitals but the multiplication sign. *)
Definition lower_char (c : ascii) : ascii :=
  let n := code c in
  if ((65 <=? n) && (n <=? 90)) || ((192 <=? n) && (n <=? 222) && negb (n =? 215))
  then ascii_of_N (Z.to_N (n + 32))
  else c.

(** [s.toLowerCase()] *)
Fixpoint toLowerCase (s : string) : string :=
  match s with
  | EmptyString => EmptyString
  | String c s' => String (lower_char c) (toLowerCase s')
  end.

(** [s.replace(/\+/g, ' ')] *)
Fixpoint replace_plus (s : string) : string :=
  match s with
  | EmptyString => EmptyString
  | String c s' => String (if Ascii.eqb c "+" then " "%char else c) (replace_plus s')
  end.

(** [s.split('/').pop()]: the text after the last slash, the whole text when
    there is none.  [cur] is the segment being read. *)
Fixpoint last_segment_from (cur : string) (s : string) : string :=
  match s with
  | EmptyString => cur
  | String c s' =>
      if Ascii.eqb c "/" then last_segment_from EmptyString s'
      else last_segment_from (cur +:+ String c EmptyString) s'
  end.

Definition split_slash_pop (s : string) : string := last_segment_from EmptyString s.

(** [a || b] where both may be undefined. *)
Definition or_opt (a b : option string) : option string :=
  if truthy_opt a then a else b.

(** Decimal text of a non-negative number, padded with zeros to [width]. *)
Fixpoint zeros (n : nat) : string :=
  match n with O => EmptyString | S n' => String "0" (zeros n') end.

Definition padStart (width : nat) (x : Z) : string :=
  let s := pretty x in
  zeros (width - String.length s) +:+ s.

(** The civil date (year, month 1-12, day 1-31) of a day number counted from
    1970-01-01, in the proleptic Gregorian calendar of ECMAScript's
    YearFromTime, MonthFromTime and DateFromTime. *)
Definition civil_from_days (z : Z) : Z * Z * Z :=
  let z := z + 719468 in
  let era := z / 146097 in
  let doe := z - era * 146097 in
  let yoe := (doe - doe / 1460 + doe / 36524 - doe / 146096) / 365 in
  let y := yoe + era * 400 in
  let doy := doe - (365 * yoe + yoe / 4 - yoe / 100) in
  let mp := (5 * doy + 2) / 153 in
  let d := doy - (153 * mp + 2) / 5 + 1 in
  let m := if mp <? 10 then mp + 3 else mp - 9 in
  (if m <=? 2 then y + 1 else y, m, d).

(** The day number of a civil date: the inverse reading, used to state what
    [toISOString] denotes. *)
Definition days_from_civil (y m d : Z) : Z :=
  let y := if m <=? 2 then y - 1 else y in
  let era := y / 400 in
  let yoe := y - era * 400 in
  let doy := (153 * (if m >? 2 then m - 3 else m + 9) + 2) / 5 + d - 1 in
  let doe := yoe * 365 + yoe / 4 - yoe / 100 + doy in
  era * 146097 + doe - 719468.

(** The broken-down UTC fields of a time value in milliseconds. *)
Record utc_fields := {
  utc_year : Z; utc_month : Z; utc_day : Z;
  utc_hours : Z; utc_minutes : Z; utc_seconds : Z; utc_ms : Z
}.

Definition utc_of_time (t : Z) : utc_fields :=
  let day := t / 86400000 in
  let rest := t mod 86400000 in
  let '(y, m, d) := civil_from_days day in
  {| utc_year := y; utc_month := m; utc_day := d;
     utc_hours := rest / 3600000;
     utc_minutes := (rest / 60000) mod 60;
     utc_seconds := (rest / 1000) mod 60;
     utc_ms := rest mod 1000 |}.

(** The time value a set of UTC fields denotes (ECMAScript's MakeDate of
    MakeDay and MakeTime). *)
Definition time_of_utc (f : utc_fields) : Z :=
  days_from_civil (utc_year f) (utc_month f) (utc_day f) * 86400000
  + utc_hours f * 3600000 + utc_minutes f * 60000 + utc_seconds f * 1000 + utc_ms f.

Definition year_text (y : Z) : string :=
  if (0 <=? y) && (y <=? 9999) then padStart 4 y
  else if y <? 0 then "-" +:+ padStart 6 (- y)
  else "+" +:+ padStart 6 y.

Definition iso_text (f : utc_fields) : string :=
  year_text (utc_year f) +:+ "-" +:+ padStart 2 (utc_month f) +:+ "-" +:+ padStart 2 (utc_day f)
  +:+ "T" +:+ padStart 2 (utc_hours f) +:+ ":" +:+ padStart 2 (utc_minutes f)
  +:+ ":" +:+ padStart 2 (utc_seconds f) +:+ "." +:+ padStart 3 (utc_ms f) +:+ "Z".

(** [new Date(t).toISOString()] for an integral [t]; [None] is the RangeError
    thrown for a time value outside the range of [Date]. *)
Definition toISOString (t : Z) : option string :=
  if Z.abs t >? 8640000000000000 then None
  else Some (iso_text (utc_of_time t)).

End JS.

(** ** [src/utils/storage/types.ts] *)

Module StorageTypes.

Record UploadParams := {
  size : Z;
  expiryTime : Z;
  objectIdentifier : string;
  uploaderIdentityKey : string
}.

(** The fields of [ObjectMetadata] carry the prefix [om_] to tell [om_size]
    from the [size] of [UploadParams]. *)
Record ObjectMetadata := {
  om_size : Z;
  om_contentType : string;
  om_lastModified : Z;
  om_customMetadata : gmap string string
}.

Record UploadResponse := {
  uploadURL : string;
  requiredHeaders : gmap string string;
  formFields : option (gmap string string)
}.

End StorageTypes.

(** ** [src/utils/getMetadata.ts] *)

Module Resolver.

(** An output of the wallet's [listOutputs]; [tags] may be absent. *)
Record WalletOutput := { tags : option (list string) }.

(** The argument object of [wallet.listOutputs]. *)
Record ListOutputsArgs := {
  basket : string;
  query_tags : list string;
  tagQueryMode : string;
  includeTags : bool;
  limit : Z;
  offset : Z
}.

Record FileMetadata := {
  objectIdentifier : string;
  name : string;
  size : string;
  contentType : string;
  expiryTime : Z
}.

(** What [getMetadata] throws: its own two errors, or an error of the wallet
    or of the storage adapter, which it lets through. *)
Inductive error :=
| NoAdvertisementFound (uhrpUrl uploaderIdentityKey : string)
| AdvertisementExpired (uhrpUrl : string)
| Propagated (message : string).

(** The collaborators of [getMetadata]: the SDK's [Utils] codecs
    ([utf8ToHex s] is [Utils.toHex(Utils.toArray(s, 'utf8'))], [hexToUTF8 s] is
    [Utils.toUTF8(Utils.toArray(s, 'hex'))]), the wallet, the clock
    ([Date.now()], milliseconds) and the storage provider.  A call that throws
    answers with the message of its error. *)
Record world := {
  utf8ToHex : string -> string;
  hexToUTF8 : string -> string;
  listOutputs : ListOutputsArgs -> string + list WalletOutput;
  now : Z;
  getObjectMetadata : string -> string + StorageTypes.ObjectMetadata
}.

(** Lines 39-42: the two tags of an output, when it has both. *)
Definition candidate (out : WalletOutput) : option (string * string) :=
  match tags out with
  | None => None
  | Some ts =>
      match List.find (JS.startsWith "object_identifier_") ts,
            List.find (JS.startsWith "expiry_time_") ts with
      | Some objectIdTag, Some expiryTag => Some (objectIdTag, expiryTag)
      | _, _ => None
      end
  end.

(** Line 44: [parseInt(expiryTag.substring('expiry_time_'.length), 10) || 0]. *)
Definition expiryNum (expiryTag : string) : Z :=
  JS.or_zero (JS.parseInt (JS.substring 12 expiryTag)).

(** The two variables the loop updates: [maxpiry], and [objectIdentifier]
    under the name [found] ([None] while it is undefined). *)
Record scan_state := {
  maxpiry : Z;
  found : option string
}.

Definition scan_init : scan_state := {| maxpiry := 0; found := None |}.

(** One iteration of the loop of lines 38-50. *)
Definition scan_step (w : world) (st : scan_state) (out : WalletOutput) : scan_state :=
  match candidate out with
  | None => st
  | Some (objectIdTag, expiryTag) =>
      let n := expiryNum expiryTag in
      if n >? maxpiry st
      then {| maxpiry := n; found := Some (hexToUTF8 w (JS.substring 18 objectIdTag)) |}
      else st
  end.

Definition scan (w : world) (outputs : list WalletOutput) : scan_state :=
  fold_left (scan_step w) outputs scan_init.

(** Lines 25-32: the argument of [wallet.listOutputs]. *)
Definition listOutputsArgs (w : world) (uhrpUrl uploaderIdentityKey : string)
    (limit offset : option Z) : ListOutputsArgs :=
  {| basket := "uhrp advertisements";
     query_tags := [ "uhrp_url_" +:+ utf8ToHex w uhrpUrl;
                     "uploader_identity_key_" +:+ uploaderIdentityKey ];
     tagQueryMode := "all";
     includeTags := true;
     limit := default 200 limit;
     offset := default 0 offset |}.

Definition getMetadata (w : world) (uhrpUrl uploaderIdentityKey : string)
    (limit offset : option Z) : error + FileMetadata :=
  match listOutputs w (listOutputsArgs w uhrpUrl uploaderIdentityKey limit offset) with
  | inl message => inl (Propagated message)
  | inr outputs =>
      let st := scan w outputs in
      if negb (JS.truthy_opt (found st))
      then inl (NoAdvertisementFound uhrpUrl uploaderIdentityKey)
      else if now w >? maxpiry st * 1000
      then inl (AdvertisementExpired uhrpUrl)
      else
        let objectIdentifier := default "" (found st) in
        let objectKey := "cdn/" +:+ objectIdentifier in
        match getObjectMetadata w objectKey with
        | inl message => inl (Propagated message)
        | inr metadata =>
            inr {| objectIdentifier := objectIdentifier;
                   name := objectKey;
                   size := pretty (StorageTypes.om_size metadata);
                   contentType := StorageTypes.om_contentType metadata;
                   expiryTime := maxpiry st |}
        end
  end.

End Resolver.

(** ** [src/utils/storage/providers/gcs.ts] *)

Module GCS.
Import StorageTypes.

Inductive error :=
| MissingEnvironment (message : string)
| InvalidTime
| SdkError (message : string).

(** The fields of the provider object set by the constructor. *)
Record instance := {
  bucketName : string;
  projectId : string
}.

(** The constructor; [env] is [process.env]. *)
Definition new (env : gmap string string) : error + instance :=
  let bucketName :=
    JS.or_else (JS.or_opt (env !! "STORAGE_BUCKET_NAME") (env !! "GCP_BUCKET_NAME")) "" in
  if negb (JS.truthy bucketName) || negb (JS.truthy_opt (env !! "GCP_PROJECT_ID"))
  then inl (MissingEnvironment "Missing required Google Cloud Storage environment variables.")
  else inr {| bucketName := bucketName; projectId := default "" (env !! "GCP_PROJECT_ID") |}.

(** The configuration object passed to [bucketFile.getSignedUrl]. *)
Record SignedUrlConfig := {
  version : string;
  action : string;
  expires : Z;
  extensionHeaders : gmap string string
}.

(** The clock ([Date.now()], milliseconds) and the SDK's signer, which is
    given the bucket, the file name and the configuration. *)
Record world := {
  now : Z;
  getSignedUrl : string -> string -> SignedUrlConfig -> error + string
}.

(** Lines 54-58 and 63-67: the same three entries, written twice in the source. *)
Definition uploadHeaders (p : UploadParams) (customTime : string) : gmap string string :=
  {[ "content-length" := pretty (size p);
     "x-goog-meta-uploaderidentitykey" := uploaderIdentityKey p;
     "x-goog-custom-time" := customTime ]}.

Definition uploadConfig (w : world) (p : UploadParams) (customTime : string) : SignedUrlConfig :=
  {| version := "v4";
     action := "write";
     expires := now w + 604000 * 1000;
     extensionHeaders := uploadHeaders p customTime |}.

Definition generateUploadURL (w : world) (self : instance) (p : UploadParams)
    : error + UploadResponse :=
  match JS.toISOString ((expiryTime p + 300) * 1000) with
  | None => inl InvalidTime
  | Some customTime =>
      match getSignedUrl w (bucketName self) ("cdn/" +:+ objectIdentifier p)
              (uploadConfig w p customTime) with
      | inl e => inl e
      | inr uploadURL =>
          inr {| uploadURL := uploadURL;
                 requiredHeaders := uploadHeaders p customTime;
                 formFields := None |}
      end
  end.

End GCS.

(** ** [src/utils/storage/providers/s3.ts] *)

Module S3.
Import StorageTypes.

Inductive error :=
| MissingEnvironment (message : string)
| InvalidTime
| SdkError (message : string).

Record instance := {
  bucketName : string;
  region : string
}.

Definition new (env : gmap string string) : error + instance :=
  let bucketName :=
    JS.or_else (JS.or_opt (env !! "STORAGE_BUCKET_NAME") (env !! "AWS_BUCKET_NAME")) "" in
  if negb (JS.truthy bucketName)
  then inl (MissingEnvironment "Missing required AWS S3 bucket name environment variable.")
  else inr {| bucketName := bucketName;
              region := JS.or_else (env !! "AWS_REGION") "us-west-2" |}.

(** A condition of a POST policy. *)
Inductive condition :=
| ContentLengthRange (low high : Z)
| StartsWith (field value : string).

(** The options object passed to [createPresignedPost]. *)
Record PresignedPostOptions := {
  Bucket : string;
  Key : string;
  Conditions : list condition;
  Fields : gmap string string;
  Expires : Z
}.

(** The response to a HeadObject command. *)
Record HeadObjectOutput := {
  ContentLength : option Z;
  ContentType : option string;
  LastModified : option Z;
  Metadata : option (gmap string string)
}.

(** The input of a CopyObject command. *)
Record CopyObjectInput := {
  copy_Bucket : string;
  copy_Key : string;
  CopySource : string;
  copy_Metadata : gmap string string;
  MetadataDirective : string;
  copy_ContentType : option string
}.

(** The SDK calls the two methods below make. *)
Record world := {
  createPresignedPost : PresignedPostOptions -> error + (string * gmap string string);
  headObject : string -> string -> error + HeadObjectOutput;
  copyObject : CopyObjectInput -> error + unit
}.

Definition uploadOptions (self : instance) (p : UploadParams) (customTime : string)
    : PresignedPostOptions :=
  {| Bucket := bucketName self;
     Key := "cdn/" +:+ objectIdentifier p;
     Conditions := [ ContentLengthRange (size p) (size p);
                     StartsWith "$x-amz-meta-uploaderidentitykey" "";
                     StartsWith "$x-amz-meta-customtime" "" ];
     Fields := {[ "x-amz-meta-uploaderidentitykey" := uploaderIdentityKey p;
                  "x-amz-meta-customtime" := customTime ]};
     Expires := 604800 |}.

Definition generateUploadURL (w : world) (self : instance) (p : UploadParams)
    : error + UploadResponse :=
  match JS.toISOString ((expiryTime p + 300) * 1000) with
  | None => inl InvalidTime
  | Some customTime =>
      match createPresignedPost w (uploadOptions self p customTime) with
      | inl e => inl e
      | inr (uploadURL, fields) =>
          inr {| uploadURL := uploadURL;
                 requiredHeaders := {[ "content-type" := "multipart/form-data" ]};
                 formFields := Some fields |}
      end
  end.

(** The patch object of [updateObjectMetadata]: its own properties in the
    order of [Object.keys], values already strings. *)
Definition patch := list (string * string).

(** [metadata[k]]: the value of the property named [k]. *)
Fixpoint get (k : string) (metadata : patch) : option string :=
  match metadata with
  | [] => None
  | (k', v) :: rest => if String.eqb k' k then Some v else get k rest
  end.

(** Lines 186-188. *)
Definition setCustomTime (metadata : patch) (m : gmap string string) : gmap string string :=
  match get "customTime" metadata with
  | Some customTime => if JS.truthy customTime then <["customtime" := customTime]> m else m
  | None => m
  end.

(** One call of the [forEach] callback of lines 191-195. *)
Definition addField (m : gmap string string) (kv : string * string) : gmap string string :=
  if String.eqb kv.1 "customTime" then m
  else <[JS.toLowerCase kv.1 := kv.2]> m.

(** Lines 182-195: the metadata written by the copy. *)
Definition newMetadata (current : option (gmap string string)) (metadata : patch)
    : gmap string string :=
  fold_left addField metadata (setCustomTime metadata (default ∅ current)).

Definition copyCommand (self : instance) (objectKey : string)
    (currentObject : HeadObjectOutput) (metadata : patch) : CopyObjectInput :=
  {| copy_Bucket := bucketName self;
     copy_Key := objectKey;
     CopySource := bucketName self +:+ "/" +:+ objectKey;
     copy_Metadata := newMetadata (Metadata currentObject) metadata;
     MetadataDirective := "REPLACE";
     copy_ContentType := ContentType currentObject |}.

Definition updateObjectMetadata (w : world) (self : instance) (objectKey : string)
    (metadata : patch) : error + unit :=
  match headObject w (bucketName self) objectKey with
  | inl e => inl e
  | inr currentObject => copyObject w (copyCommand self objectKey currentObject metadata)
  end.

End S3.

(** ** The provider factory: [getStorageProvider] and [resetStorageProvider] *)

Module Storage.

Inductive implementation :=
| GCSStorageProvider (self : GCS.instance)
| S3StorageProvider (self : S3.instance).

(** A provider object: [identity] tells two objects built by two [new]
    expressions apart. *)
Record StorageProvider := {
  identity : nat;
  impl : implementation
}.

Inductive error :=
| UnsupportedProvider (providerType : string)
| GCSFailed (e : GCS.error)
| S3Failed (e : S3.error).

(** The module variable [storageProvider] and the number of provider objects
    built so far. *)
Record state := {
  storageProvider : option StorageProvider;
  allocated : nat
}.

Definition initial : state := {| storageProvider := None; allocated := 0 |}.

(** [new C()] followed by the assignment to [storageProvider]. *)
Definition install (i : implementation) (st : state) : (error + StorageProvider) * state :=
  let p := {| identity := allocated st; impl := i |} in
  (inr p, {| storageProvider := Some p; allocated := S (allocated st) |}).

Definition getStorageProvider (env : gmap string string) (st : state)
    : (error + StorageProvider) * state :=
  match storageProvider st with
  | Some p => (inr p, st)
  | None =>
      let providerType := JS.toLowerCase (JS.or_else (env !! "STORAGE_PROVIDER") "gcs") in
      if String.eqb providerType "gcs" then
        match GCS.new env with
        | inl e => (inl (GCSFailed e), st)
        | inr self => install (GCSStorageProvider self) st
        end
      else if String.eqb providerType "aws" then
        match S3.new env with
        | inl e => (inl (S3Failed e), st)
        | inr self => install (S3StorageProvider self) st
        end
      else (inl (UnsupportedProvider providerType), st)
  end.

Definition resetStorageProvider (st : state) : state :=
  {| storageProvider := None; allocated := allocated st |}.

Definition is_gcs (p : StorageProvider) : bool :=
  match impl p with GCSStorageProvider _ => true | S3StorageProvider _ => false end.

Definition is_s3 (p : StorageProvider) : bool :=
  match impl p with S3StorageProvider _ => true | GCSStorageProvider _ => false end.

End Storage.

(** ** [k8s/s3-event-handler/src/event-handler.js] *)

Module EventHandler.

Inductive error :=
| SyntaxError
| URIError
| MissingUploaderIdentityKey
| External (message : string).

(** The response to a HeadObject command. *)
Record HeadObjectOutput := {
  ContentLength : option Z;
  ContentType : option string;
  LastModified : option Z;
  Metadata : option (gmap string string)
}.

(** The body posted to the advertise endpoint; [expiryTime] is [None] when
    the arithmetic gave [NaN]. *)
Record notificationData := {
  adminToken : option string;
  uhrpUrl : string;
  uploaderIdentityKey : string;
  objectIdentifier : string;
  expiryTime : option Z;
  fileSize : option Z
}.

(** One record of an S3 event notification, with the three fields the loop
    reads ([record.eventName], [record.s3.bucket.name], [record.s3.object.key]);
    S3 sends all three in every record. *)
Record S3EventRecord := {
  eventName : string;
  bucket_name : string;
  object_key : string
}.

(** What [JSON.parse(message.Body)] gives: [parsed] is [None] when it throws,
    and [Records] is [None] when the parsed value has no truthy [Records] (the
    test event S3 sends when a notification is configured is such a body). *)
Record json_body := { Records : option (list S3EventRecord) }.

Record message := {
  parsed : option json_body;
  ReceiptHandle : string
}.

(** The calls that leave the process. *)
Inductive effect :=
| HeadObject (bucket key : string)
| GetObject (bucket key : string)
| ReadBody (bucket key : string)
| PostAdvertise (data : notificationData)
| DeleteMessage (receiptHandle : string)
| ReceiveMessage
| Sleep (ms : Z).

(** A call and whether it returned ([true]) or threw ([false]). *)
Definition call : Type := effect * bool.

(** The two counters of the module and the log of its calls so far. *)
Record state := {
  processedEvents : Z;
  processingErrors : Z;
  trace : list call
}.

(** The surrounding world.  Every answer may depend on the calls made so far. *)
Record world := {
  ADMIN_TOKEN : option string;
  decodeURIComponent : string -> option string;
  date_parse : string -> option Z;
  date_now : list call -> Z;
  getURLForHash : list string -> string;
  s3_head : list call -> string -> string -> error + HeadObjectOutput;
  s3_get : list call -> string -> string -> error + unit;
  s3_read : list call -> string -> string -> error + list string;
  http_post : list call -> notificationData -> error + unit;
  sqs_delete : list call -> string -> error + unit;
  sqs_receive : list call -> error + option (list message)
}.

(** *** A state and exception monad for the handler *)

Definition M (A : Type) : Type := state -> (error + A) * state.

Definition ret {A} (a : A) : M A := fun s => (inr a, s).

Definition throw {A} (e : error) : M A := fun s => (inl e, s).

Definition bind {A B} (m : M A) (k : A -> M B) : M B :=
  fun s =>
    match m s with
    | (inr a, s') => k a s'
    | (inl e, s') => (inl e, s')
    end.

Definition try_catch {A} (m : M A) (handler : error -> M A) : M A :=
  fun s =>
    match m s with
    | (inl e, s') => handler e s'
    | (inr a, s') => (inr a, s')
    end.

Declare Scope handler_scope.
Delimit Scope handler_scope with handler.
Notation "x <- c1 ;; c2" := (bind c1 (fun x => c2))
  (at level 100, c1 at next level, right associativity) : handler_scope.
Notation "c1 ;;; c2" := (bind c1 (fun _ => c2))
  (at level 100, right associativity) : handler_scope.
Local Open Scope handler_scope.

Definition succeeded {A} (r : error + A) : bool :=
  match r with inr _ => true | inl _ => false end.

(** An outgoing call: the world answers from the log, and the call is logged
    with its outcome. *)
Definition perform {A} (eff : effect) (answer : list call -> error + A) : M A :=
  fun s =>
    let r := answer (trace s) in
    (r, {| processedEvents := processedEvents s;
           processingErrors := processingErrors s;
           trace := trace s ++ [(eff, succeeded r)] |}).

(** [processedEvents++] *)
Definition count_processed : M unit :=
  fun s => (inr tt, {| processedEvents := processedEvents s + 1;
                       processingErrors := processingErrors s;
                       trace := trace s |}).

(** [processingErrors++] *)
Definition count_error : M unit :=
  fun s => (inr tt, {| processedEvents := processedEvents s;
                       processingErrors := processingErrors s + 1;
                       trace := trace s |}).

(** [Date.now()] *)
Definition clock (w : world) : M Z := fun s => (inr (date_now w (trace s)), s).

(** [Math.round(t / 1000)] for an integral [t]. *)
Definition round_seconds (t : Z) : Z := (t + 500) / 1000.

(** Lines 108-118. *)
Definition requireUploaderIdentityKey (metadata : HeadObjectOutput) : M string :=
  match Metadata metadata with
  | Some m =>
      match m !! "uploaderidentitykey" with
      | Some k => if JS.truthy k then ret k else throw MissingUploaderIdentityKey
      | None => throw MissingUploaderIdentityKey
      end
  | None => throw MissingUploaderIdentityKey
  end.

(** Lines 121-123. *)
Definition expiryOf (w : world) (metadata : HeadObjectOutput) : M (option Z) :=
  match Metadata metadata with
  | Some m =>
      match m !! "customtime" with
      | Some customtime =>
          if JS.truthy customtime
          then ret (round_seconds <$> date_parse w customtime)
          else t <- clock w ;; ret (Some (round_seconds t + 30 * 24 * 60 * 60))
      | None => t <- clock w ;; ret (Some (round_seconds t + 30 * 24 * 60 * 60))
      end
  | None => t <- clock w ;; ret (Some (round_seconds t + 30 * 24 * 60 * 60))
  end.

(** The [try] block of [processS3Object], lines 93-179. *)
Definition advertise (w : world) (bucketName objectKey : string) : M unit :=
  metadata <- perform (HeadObject bucketName objectKey)
                (fun h => s3_head w h bucketName objectKey) ;;
  uploaderIdentityKey <- requireUploaderIdentityKey metadata ;;
  expiryTime <- expiryOf w metadata ;;
  _ <- perform (GetObject bucketName objectKey)
         (fun h => s3_get w h bucketName objectKey) ;;
  chunks <- perform (ReadBody bucketName objectKey)
              (fun h => s3_read w h bucketName objectKey) ;;
  let notificationData :=
    {| adminToken := ADMIN_TOKEN w;
       uhrpUrl := getURLForHash w chunks;
       uploaderIdentityKey := uploaderIdentityKey;
       objectIdentifier := JS.split_slash_pop objectKey;
       expiryTime := expiryTime;
       fileSize := ContentLength metadata |} in
  _ <- perform (PostAdvertise notificationData)
         (fun h => http_post w h notificationData) ;;
  count_processed.

Definition processS3Object (w : world) (bucketName objectKey : string) : M unit :=
  if negb (JS.startsWith "cdn/" objectKey) then ret tt
  else try_catch (advertise w bucketName objectKey)
         (fun e => count_error ;;; throw e).

(** The body of the [for] loop of lines 195-202, for one record. *)
Definition processRecord (w : world) (record : S3EventRecord) : M unit :=
  if JS.startsWith "ObjectCreated:" (eventName record) then
    match decodeURIComponent w (JS.replace_plus (object_key record)) with
    | None => throw URIError
    | Some objectKey => processS3Object w (bucket_name record) objectKey
    end
  else ret tt.

Fixpoint processRecords (w : world) (records : list S3EventRecord) : M unit :=
  match records with
  | [] => ret tt
  | record :: rest => processRecord w record ;;; processRecords w rest
  end.

(** Lines 191-203: everything [processMessage] does before the delete. *)
Definition handleBody (w : world) (m : message) : M unit :=
  match parsed m with
  | None => throw SyntaxError
  | Some body =>
      match Records body with
      | Some records => processRecords w records
      | None => ret tt
      end
  end.

Definition processMessage (w : world) (m : message) : M unit :=
  try_catch
    (handleBody w m ;;;
     perform (DeleteMessage (ReceiptHandle m)) (fun h => sqs_delete w h (ReceiptHandle m)))
    (fun _ => count_error).

(** [await Promise.all(ps)]: every computation runs; the first rejection, if
    any, is thrown once all have run.  The computations are run one after the
    other in the order of the list, which is one of the schedules the event
    loop may follow. *)
Fixpoint promise_all (ps : list (M unit)) : M unit :=
  match ps with
  | [] => ret tt
  | p :: rest =>
      fun s =>
        match p s with
        | (inr _, s') => promise_all rest s'
        | (inl e, s') => (inl e, (promise_all rest s').2)
        end
  end.

(** One turn of the [while (true)] loop of [pollSQS]. *)
Definition pollOnce (w : world) : M unit :=
  try_catch
    (response <- perform ReceiveMessage (sqs_receive w) ;;
     match response with
     | Some (m :: ms) => promise_all (map (processMessage w) (m :: ms))
     | _ => ret tt
     end)
    (fun _ => count_error ;;; perform (Sleep 5000) (fun _ => inr tt)).

(** The first [turns] turns of [pollSQS]; the result is [inl] when an
    exception leaves the loop. *)
Fixpoint pollSQS (w : world) (turns : nat) : M unit :=
  match turns with
  | O => ret tt
  | S n => pollOnce w ;;; pollSQS w n
  end.

End EventHandler.


(** ** [src/utils/storage/types.ts], the listing types *)

Module Listing.

Record ListObjectsParams := {
  prefix : option string;
  maxKeys : option Z;
  continuationToken : option string
}.

(** [size] is [None] when the provider computed [NaN]; [lastModified] is the
    time value of the date, [None] for an invalid date. *)
Record ObjectInfo := {
  key : string;
  size : option Z;
  lastModified : option Z
}.

Record ListObjectsResponse := {
  objects : list ObjectInfo;
  nextToken : option string;
  isTruncated : bool
}.

End Listing.

(** ** [src/utils/storage/providers/s3.ts], the other methods *)

Module S3Ops.

(** An error thrown by the S3 client, with the two properties [objectExists]
    looks at: [error.name] and [error.$metadata?.httpStatusCode]. *)
Record ServiceError := {
  err_name : string;
  err_message : string;
  httpStatusCode : option Z
}.

Record S3Object := {
  obj_Key : option string;
  obj_Size : option Z;
  obj_LastModified : option Z
}.

Record ListObjectsV2Input := {
  list_Bucket : string;
  Prefix : option string;
  MaxKeys : Z;
  ContinuationToken : option string
}.

Record ListObjectsV2Output := {
  Contents : option (list S3Object);
  NextContinuationToken : option string;
  IsTruncated : option bool
}.

(** The S3 client and the presigner; [now] is the time value of [new Date()].
    [send_get] answers with the chunks the body stream yields and the error
    that ends the stream, if one does. *)
Record world := {
  now : Z;
  send_head : string -> string -> ServiceError + S3.HeadObjectOutput;
  send_delete : string -> string -> ServiceError + unit;
  send_list : ListObjectsV2Input -> ServiceError + ListObjectsV2Output;
  send_get : string -> string -> ServiceError + (list string * option ServiceError);
  presign_get : string -> string -> Z -> ServiceError + string
}.

(** Lines 81-95. *)
Definition getObjectMetadata (w : world) (self : S3.instance) (objectKey : string)
    : ServiceError + StorageTypes.ObjectMetadata :=
  match send_head w (S3.bucketName self) objectKey with
  | inl e => inl e
  | inr response =>
      inr {| StorageTypes.om_size := default 0 (S3.ContentLength response);
             StorageTypes.om_contentType :=
               JS.or_else (S3.ContentType response) "application/octet-stream";
             StorageTypes.om_lastModified := default (now w) (S3.LastModified response);
             StorageTypes.om_customMetadata := default ∅ (S3.Metadata response) |}
  end.

(** The test of line 102. *)
Definition is_not_found (error : ServiceError) : bool :=
  String.eqb (err_name error) "NotFound" ||
  match httpStatusCode error with
  | Some status => status =? 404
  | None => false
  end.

(** Lines 97-107. *)
Definition objectExists (w : world) (self : S3.instance) (objectKey : string)
    : ServiceError + bool :=
  match getObjectMetadata w self objectKey with
  | inr _ => inr true
  | inl error => if is_not_found error then inr false else inl error
  end.

(** Lines 109-116. *)
Definition deleteObject (w : world) (self : S3.instance) (objectKey : string)
    : ServiceError + unit :=
  send_delete w (S3.bucketName self) objectKey.

(** Lines 128-132: one entry of the listing. *)
Definition objectInfo (w : world) (obj : S3Object) : Listing.ObjectInfo :=
  {| Listing.key := JS.or_else (obj_Key obj) "";
     Listing.size := Some (default 0 (obj_Size obj));
     Listing.lastModified := Some (default (now w) (obj_LastModified obj)) |}.

(** Lines 118-139. *)
Definition listObjects (w : world) (self : S3.instance) (params : Listing.ListObjectsParams)
    : ServiceError + Listing.ListObjectsResponse :=
  match send_list w {| list_Bucket := S3.bucketName self;
                       Prefix := Listing.prefix params;
                       MaxKeys := default 1000 (Listing.maxKeys params);
                       ContinuationToken := Listing.continuationToken params |} with
  | inl e => inl e
  | inr response =>
      inr {| Listing.objects := map (objectInfo w) (default [] (Contents response));
             Listing.nextToken := NextContinuationToken response;
             Listing.isTruncated := default false (IsTruncated response) |}
  end.

(** Lines 141-148. *)
Definition generateDownloadURL (w : world) (self : S3.instance) (objectKey : string)
    (expiresIn : Z) : ServiceError + string :=
  presign_get w (S3.bucketName self) objectKey expiresIn.

(** Lines 150-167; [Buffer.concat] is the concatenation of the chunks. *)
Definition downloadObject (w : world) (self : S3.instance) (objectKey : string)
    : ServiceError + string :=
  match send_get w (S3.bucketName self) objectKey with
  | inl e => inl e
  | inr (chunks, Some e) => inl e
  | inr (chunks, None) => inr (String.concat "" chunks)
  end.

(** Lines 210-212. *)
Definition getProviderName : string := "aws".

End S3Ops.

(** ** [src/utils/storage/providers/gcs.ts], the other methods *)

Module GCSOps.

(** The metadata object of a file as the GCS client returns it; the API
    gives [size] as text. *)
Record FileMetadata := {
  fm_size : option string;
  fm_contentType : option string;
  fm_updated : option string;
  fm_timeCreated : option string;
  fm_metadata : option (gmap string string)
}.

Record File := {
  file_name : string;
  file_metadata : FileMetadata
}.

(** The options of [bucket.getFiles]; [pageToken] is set only by line 101. *)
Record GetFilesOptions := {
  opt_prefix : option string;
  maxResults : Z;
  pageToken : option string
}.

(** What [getObjectMetadata] returns; [om_size] is [None] for [NaN] and
    [om_lastModified] is [None] for an invalid date. *)
Record ObjectMetadata := {
  om_size : option Z;
  om_contentType : string;
  om_lastModified : option Z;
  om_customMetadata : gmap string string
}.

(** The GCS client.  [getFiles] answers with the files and with [nextQuery]:
    [None] when there is none, and inside it the page token, if any.
    [date_parse] is the time value of [new Date(text)]. *)
Record world := {
  now : Z;
  date_parse : string -> option Z;
  file_getMetadata : string -> string -> string + FileMetadata;
  file_exists : string -> string -> string + bool;
  file_delete : string -> string -> string + unit;
  getFiles : string -> GetFilesOptions -> string + (list File * option (option string));
  getSignedUrl : string -> string -> GCS.SignedUrlConfig -> string + string;
  file_download : string -> string -> string + string;
  file_setMetadata : string -> string -> gmap string string -> string + unit
}.

(** [parseInt(size, 10)] of a possibly missing text. *)
Definition parseSize (size : option string) : option Z :=
  match size with
  | Some text => JS.parseInt text
  | None => None
  end.

(** [new Date(metadata.updated || metadata.timeCreated)] *)
Definition modified (w : world) (metadata : FileMetadata) : option Z :=
  match JS.or_opt (fm_updated metadata) (fm_timeCreated metadata) with
  | Some text => date_parse w text
  | None => None
  end.

(** Lines 71-81. *)
Definition getObjectMetadata (w : world) (self : GCS.instance) (objectKey : string)
    : string + ObjectMetadata :=
  match file_getMetadata w (GCS.bucketName self) objectKey with
  | inl e => inl e
  | inr metadata =>
      inr {| om_size := parseSize (fm_size metadata);
             om_contentType := JS.or_else (fm_contentType metadata) "application/octet-stream";
             om_lastModified := modified w metadata;
             om_customMetadata := default ∅ (fm_metadata metadata) |}
  end.

(** Lines 83-87. *)
Definition objectExists (w : world) (self : GCS.instance) (objectKey : string)
    : string + bool :=
  file_exists w (GCS.bucketName self) objectKey.

(** Lines 89-92. *)
Definition deleteObject (w : world) (self : GCS.instance) (objectKey : string)
    : string + unit :=
  file_delete w (GCS.bucketName self) objectKey.

(** Lines 95-102. *)
Definition getFilesOptions (params : Listing.ListObjectsParams) : GetFilesOptions :=
  {| opt_prefix := Listing.prefix params;
     maxResults := default 1000 (Listing.maxKeys params);
     pageToken :=
       if JS.truthy_opt (Listing.continuationToken params)
       then Listing.continuationToken params
       else None |}.

(** Lines 106-110. *)
Definition objectInfo (w : world) (file : File) : Listing.ObjectInfo :=
  {| Listing.key := file_name file;
     Listing.size := parseSize (fm_size (file_metadata file));
     Listing.lastModified := modified w (file_metadata file) |}.

(** Lines 94-117. *)
Definition listObjects (w : world) (self : GCS.instance) (params : Listing.ListObjectsParams)
    : string + Listing.ListObjectsResponse :=
  match getFiles w (GCS.bucketName self) (getFilesOptions params) with
  | inl e => inl e
  | inr (files, nextQuery) =>
      inr {| Listing.objects := map (objectInfo w) files;
             Listing.nextToken := nextQuery ≫= id;
             Listing.isTruncated := JS.truthy_opt (nextQuery ≫= id) |}
  end.

(** Lines 119-127. *)
Definition generateDownloadURL (w : world) (self : GCS.instance) (objectKey : string)
    (expiresIn : Z) : string + string :=
  getSignedUrl w (GCS.bucketName self) objectKey
    {| GCS.version := "v4";
       GCS.action := "read";
       GCS.expires := now w + expiresIn * 1000;
       GCS.extensionHeaders := ∅ |}.

(** Lines 129-133. *)
Definition downloadObject (w : world) (self : GCS.instance) (objectKey : string)
    : string + string :=
  file_download w (GCS.bucketName self) objectKey.

(** Lines 141-143: the object [gcsMetadata] after the test on [customTime]. *)
Definition withCustomTime (metadata : S3.patch) : gmap string string :=
  match S3.get "customTime" metadata with
  | Some customTime => if JS.truthy customTime then {[ "customTime" := customTime ]} else ∅
  | None => ∅
  end.

(** One call of the [forEach] callback of lines 146-150. *)
Definition copyField (m : gmap string string) (kv : string * string) : gmap string string :=
  if String.eqb kv.1 "customTime" then m else <[kv.1 := kv.2]> m.

(** Lines 139-150: the object passed to [file.setMetadata]. *)
Definition gcsMetadata (metadata : S3.patch) : gmap string string :=
  fold_left copyField metadata (withCustomTime metadata).

(** Lines 135-153. *)
Definition updateObjectMetadata (w : world) (self : GCS.instance) (objectKey : string)
    (metadata : S3.patch) : string + unit :=
  file_setMetadata w (GCS.bucketName self) objectKey (gcsMetadata metadata).

(** Lines 155-157. *)
Definition getProviderName : string := "gcs".

End GCSOps.

(** ** The header-signed draft of the S3 provider's [generateUploadURL] *)

Module S3Draft.

(** The input of the PutObject command that is presigned. *)
Record PutObjectInput := {
  Bucket : string;
  Key : string;
  ContentLength : Z;
  Metadata : gmap string string
}.

(** The presigner: the command and [expiresIn]. *)
Record world := {
  getSignedUrl : PutObjectInput -> Z -> S3.error + string
}.

Definition putCommand (self : S3.instance) (p : StorageTypes.UploadParams)
    (customTime : string) : PutObjectInput :=
  {| Bucket := S3.bucketName self;
     Key := "cdn/" +:+ StorageTypes.objectIdentifier p;
     ContentLength := StorageTypes.size p;
     Metadata := {[ "uploaderidentitykey" := StorageTypes.uploaderIdentityKey p;
                    "customtime" := customTime ]} |}.

Definition requiredHeaders (p : StorageTypes.UploadParams) (customTime : string)
    : gmap string string :=
  {[ "content-length" := pretty (StorageTypes.size p);
     "x-amz-meta-uploaderidentitykey" := StorageTypes.uploaderIdentityKey p;
     "x-amz-meta-customtime" := customTime ]}.

Definition generateUploadURL (w : world) (self : S3.instance) (p : StorageTypes.UploadParams)
    : S3.error + StorageTypes.UploadResponse :=
  match JS.toISOString ((StorageTypes.expiryTime p + 300) * 1000) with
  | None => inl S3.InvalidTime
  | Some customTime =>
      match getSignedUrl w (putCommand self p customTime) 604800 with
      | inl e => inl e
      | inr uploadURL =>
          inr {| StorageTypes.uploadURL := uploadURL;
                 StorageTypes.requiredHeaders := requiredHeaders p customTime;
                 StorageTypes.formFields := None |}
      end
  end.

End S3Draft.

(** ** The upload function: [devUploadFunction] and [prodUploadFunction] *)

Module Upload.

Inductive error :=
| FactoryFailed (e : Storage.error)
| GCSFailed (e : GCS.error)
| S3Failed (e : S3.error).

Definition devUploadFunction : StorageTypes.UploadResponse :=
  {| StorageTypes.uploadURL := "http://localhost:8080/upload";
     StorageTypes.requiredHeaders := ∅;
     StorageTypes.formFields := None |}.

(** [storage.generateUploadURL(params)] on the object the factory returned. *)
Definition generateUploadURL (gw : GCS.world) (sw : S3.world) (storage : Storage.StorageProvider)
    (params : StorageTypes.UploadParams) : error + StorageTypes.UploadResponse :=
  match Storage.impl storage with
  | Storage.GCSStorageProvider self =>
      match GCS.generateUploadURL gw self params with
      | inl e => inl (GCSFailed e)
      | inr r => inr r
      end
  | Storage.S3StorageProvider self =>
      match S3.generateUploadURL sw self params with
      | inl e => inl (S3Failed e)
      | inr r => inr r
      end
  end.

Definition prodUploadFunction (env : gmap string string) (gw : GCS.world) (sw : S3.world)
    (params : StorageTypes.UploadParams) (st : Storage.state)
    : (error + StorageTypes.UploadResponse) * Storage.state :=
  match Storage.getStorageProvider env st with
  | (inl e, st') => (inl (FactoryFailed e), st')
  | (inr storage, st') => (generateUploadURL gw sw storage params, st')
  end.

(** The default export: the choice is made on [NODE_ENV]. *)
Definition upload (env : gmap string string) (gw : GCS.world) (sw : S3.world)
    (params : StorageTypes.UploadParams) (st : Storage.state)
    : (error + StorageTypes.UploadResponse) * Storage.state :=
  match env !! "NODE_ENV" with
  | Some mode =>
      if String.eqb mode "development" then (inr devUploadFunction, st)
      else prodUploadFunction env gw sw params st
  | None => prodUploadFunction env gw sw params st
  end.

(** [storage.getProviderName()] on the object the factory returned. *)
Definition getProviderName (storage : Storage.StorageProvider) : string :=
  match Storage.impl storage with
  | Storage.GCSStorageProvider _ => GCSOps.getProviderName
  | Storage.S3StorageProvider _ => S3Ops.getProviderName
  end.

End Upload.

(** ** [event-handler.js], the manual notification endpoint *)

Module Notify.

(** The parsed body of the request: [None] when there is none; [key] may be
    missing from it.  [bucket] is only handed on to the S3 client; requests
    without one are not covered. *)
Record body := {
  bucket : string;
  key : option string
}.

Inductive failure :=
| TypeError
| Thrown (e : EventHandler.error).

(** The response: [res.json(...)] with status 200, or status 500 with the
    error. *)
Inductive response :=
| Success
| InternalServerError (e : failure).

(** Lines 61-70.  [processS3Object] calls [objectKey.startsWith] first, which
    throws a TypeError on a missing key; destructuring a missing body throws
    one too. *)
Definition notify (w : EventHandler.world) (req : option body)
    : EventHandler.state -> response * EventHandler.state :=
  fun s =>
    match req with
    | None => (InternalServerError TypeError, s)
    | Some b =>
        match key b with
        | None => (InternalServerError TypeError, s)
        | Some objectKey =>
            match EventHandler.processS3Object w (bucket b) objectKey s with
            | (inr _, s') => (Success, s')
            | (inl e, s') => (InternalServerError (Thrown e), s')
            end
        end
    end.

End Notify.

(** ** Vocabulary for stating the resolver's properties *)

Module ResolverSpec.
Import Resolver.

(** The parsed expiry and the identifier tag of an output that carries both
    tags; [None] for an output the loop skips. *)
Definition reading (out : WalletOutput) : option (Z * string) :=
  match candidate out with
  | Some (objectIdTag, expiryTag) => Some (expiryNum expiryTag, objectIdTag)
  | None => None
  end.

(** [greatest_first outputs e t]: some output reads [(e, t)], every tagged
    output before it has a smaller expiry and none after it has a greater one.
    It is the first output of greatest parsed expiry, in store order. *)
Definition greatest_first (outputs : list WalletOutput) (e : Z) (t : string) : Prop :=
  exists pre out post,
    outputs = pre ++ out :: post /\
    reading out = Some (e, t) /\
    (forall o e' t', o ∈ pre -> reading o = Some (e', t') -> e' < e) /\
    (forall o e' t', o ∈ post -> reading o = Some (e', t') -> e' <= e).

(** The state in which the loop ends when it selects the output read [(e, t)]. *)
Definition selected (w : world) (e : Z) (t : string) : scan_state :=
  {| maxpiry := e; found := Some (hexToUTF8 w (JS.substring 18 t)) |}.

(** The selection rule in the words of the specification: the loop ends on
    the first output of greatest parsed expiry among those with both tags. *)
Definition selects_greatest (w : world) (outputs : list WalletOutput) : Prop :=
  forall e t, greatest_first outputs e t -> scan w outputs = selected w e t.

(** The failure rule in the words of the specification: [getMetadata] fails
    with NoAdvertisementFound exactly when no output has both tags. *)
Definition fails_iff_untagged (w : world) (uhrpUrl uploaderIdentityKey : string)
    (outputs : list WalletOutput) : Prop :=
  getMetadata w uhrpUrl uploaderIdentityKey None None
    = inl (NoAdvertisementFound uhrpUrl uploaderIdentityKey)
  <-> (forall out, out ∈ outputs -> candidate out = None).

End ResolverSpec.

(** ** Vocabulary for stating the providers' properties *)

Module ProviderSpec.
Import StorageTypes.



End ProviderSpec.

(** ** Vocabulary for stating the factory's properties *)

Module StorageSpec.
Import Storage.

(** The text the [switch] of line 132 looks at. *)
Definition providerType (env : gmap string string) : string :=
  JS.toLowerCase (JS.or_else (env !! "STORAGE_PROVIDER") "gcs").

(** The selection rule in the words of the claim, for a first call: the GCS
    provider when the variable is unset or reads [gcs] in any case, the S3
    provider when it reads [aws] in any case, an error for every other value. *)
Definition selects_by_name (env : gmap string string) : Prop :=
  match env !! "STORAGE_PROVIDER" with
  | None => exists p st, getStorageProvider env initial = (inr p, st) /\ is_gcs p = true
  | Some v =>
      if String.eqb (JS.toLowerCase v) "gcs"
      then exists p st, getStorageProvider env initial = (inr p, st) /\ is_gcs p = true
      else if String.eqb (JS.toLowerCase v) "aws"
      then exists p st, getStorageProvider env initial = (inr p, st) /\ is_s3 p = true
      else exists e st, getStorageProvider env initial = (inl e, st)
  end.

End StorageSpec.

(** ** Vocabulary for stating the event handler's properties *)

Module HandlerSpec.
Import EventHandler.

Definition is_delete (c : call) : bool :=
  match c.1 with DeleteMessage _ => true | _ => false end.

Definition is_post (c : call) : bool :=
  match c.1 with PostAdvertise _ => true | _ => false end.

(** No call of [evs] is a delete. *)
Definition quiet (evs : list call) : Prop :=
  Forall (fun c => is_delete c = false) evs.

(** No call of [evs] is a delete and every one of them returned. *)
Definition clean (evs : list call) : Prop :=
  Forall (fun c => is_delete c = false /\ c.2 = true) evs.

(** The number of registration calls in [evs]. *)
Definition posts (evs : list call) : nat := length (List.filter is_post evs).

(** A record that calls for a registration: an ObjectCreated event whose
    decoded key lies under [cdn/]. *)
Definition due (w : world) (record : S3EventRecord) : bool :=
  JS.startsWith "ObjectCreated:" (eventName record) &&
  match decodeURIComponent w (JS.replace_plus (object_key record)) with
  | Some objectKey => JS.startsWith "cdn/" objectKey
  | None => false
  end.

(** The event records of a message; none when the body does not parse. *)
Definition records_of (m : message) : list S3EventRecord :=
  match parsed m with
  | Some body => default [] (Records body)
  | None => []
  end.


(** The state after a call: the same counters, one more entry in the log. *)
Definition logged (s : state) (c : call) : state :=
  {| processedEvents := processedEvents s;
     processingErrors := processingErrors s;
     trace := trace s ++ [c] |}.

(** The state after [processingErrors++]. *)
Definition failed (s : state) : state :=
  {| processedEvents := processedEvents s;
     processingErrors := processingErrors s + 1;
     trace := trace s |}.

End HandlerSpec.

(** ** Further vocabulary *)

Module ResolverOrder.
Import Resolver ResolverSpec.

(** Two tagged outputs with the same parsed expiry carry the same identifier
    tag. *)
Definition no_ties (outputs : list WalletOutput) : Prop :=
  forall o o' e t t',
    o ∈ outputs -> o' ∈ outputs ->
    reading o = Some (e, t) -> reading o' = Some (e, t') -> t = t'.

(** The record of lines 65-71 for the identifier, the expiry and the
    adapter's metadata. *)
Definition composed (objectIdentifier : string) (e : Z)
    (metadata : StorageTypes.ObjectMetadata) : FileMetadata :=
  {| Resolver.objectIdentifier := objectIdentifier;
     name := "cdn/" +:+ objectIdentifier;
     size := pretty (StorageTypes.om_size metadata);
     contentType := StorageTypes.om_contentType metadata;
     expiryTime := e |}.

End ResolverOrder.

Module ProviderMore.

(** The bucket a provider object works on. *)
Definition bucket_of (p : Storage.StorageProvider) : string :=
  match Storage.impl p with
  | Storage.GCSStorageProvider self => GCS.bucketName self
  | Storage.S3StorageProvider self => S3.bucketName self
  end.


(** The states of the factory module that calls of [getStorageProvider] and
    [resetStorageProvider] can reach. *)
Inductive reachable : Storage.state -> Prop :=
| reach_initial : reachable Storage.initial
| reach_get (env : gmap string string) (st : Storage.state) :
    reachable st -> reachable (Storage.getStorageProvider env st).2
| reach_reset (st : Storage.state) :
    reachable st -> reachable (Storage.resetStorageProvider st).

(** The parameters of a listing that asks for the page after [r]. *)
Definition next_page (params : Listing.ListObjectsParams) (r : Listing.ListObjectsResponse)
    : Listing.ListObjectsParams :=
  {| Listing.prefix := Listing.prefix params;
     Listing.maxKeys := Listing.maxKeys params;
     Listing.continuationToken := Listing.nextToken r |}.

(** The object as the bucket holds it once the copy [command] is done: the
    REPLACE directive stores the metadata and the content type of the command;
    [modified] is the time of the copy. *)
Definition after_copy (currentObject : S3.HeadObjectOutput) (command : S3.CopyObjectInput)
    (modified : option Z) : S3.HeadObjectOutput :=
  {| S3.ContentLength := S3.ContentLength currentObject;
     S3.ContentType := S3.copy_ContentType command;
     S3.LastModified := modified;
     S3.Metadata := Some (S3.copy_Metadata command) |}.

End ProviderMore.

Module HandlerMore.
Import EventHandler HandlerSpec.

Definition is_receive (c : call) : bool :=
  match c.1 with ReceiveMessage => true | _ => false end.

Definition is_sleep (c : call) : bool :=
  match c.1 with Sleep _ => true | _ => false end.

(** The number of registrations in [evs] that returned. *)
Definition registered (evs : list call) : nat :=
  length (List.filter (fun c => is_post c && c.2) evs).

(** The numbers of polls, of polls that threw, and of pauses in [evs]. *)
Definition polls (evs : list call) : nat := length (List.filter is_receive evs).

Definition failed_polls (evs : list call) : nat :=
  length (List.filter (fun c => is_receive c && negb c.2) evs).

Definition sleeps (evs : list call) : nat := length (List.filter is_sleep evs).

(** The calls of [evs] are calls made for messages: no poll, no pause. *)
Definition message_calls (evs : list call) : Prop :=
  Forall (fun c => is_receive c = false /\ is_sleep c = false) evs.

(** Between [s] and [s'] the calls [evs] were logged, and the counter of
    processed events went up by the number of registrations that returned. *)
Definition accounts (s s' : state) (evs : list call) : Prop :=
  trace s' = trace s ++ evs /\
  processedEvents s' = processedEvents s + Z.of_nat (registered evs).

(** [s] contains a slash. *)
Fixpoint has_slash (s : string) : bool :=
  match s with
  | EmptyString => false
  | String c rest => Ascii.eqb c "/" || has_slash rest
  end.

(** The expiry the handler registers for [metadata] when the clock reads
    [now]: lines 121-123. *)
Definition registered_expiry (w : world) (metadata : gmap string string) (now : Z)
    : option Z :=
  match metadata !! "customtime" with
  | Some customtime =>
      if JS.truthy customtime then round_seconds <$> date_parse w customtime
      else Some (round_seconds now + 2592000)
  | None => Some (round_seconds now + 2592000)
  end.

(** A message with the single record [record]. *)
Definition single (record : S3EventRecord) (handle : string) : message :=
  {| parsed := Some {| Records := Some [record] |}; ReceiptHandle := handle |}.

(** The calls of one turn of the polling loop: a poll that returned, followed
    by calls made for its messages, or a poll that threw, followed by a pause
    of five seconds. *)
Definition turn_log (evs : list call) : Prop :=
  (exists calls, evs = (ReceiveMessage, true) :: calls /\ message_calls calls) \/
  evs = [ (ReceiveMessage, false); (Sleep 5000, true) ].

(** The object store kept every [x-amz-meta-] field of the upload form as a
    metadata entry of the object. *)
Definition stores_fields (fields entries : gmap string string) : Prop :=
  forall name value,
    fields !! ("x-amz-meta-" +:+ name) = Some value -> entries !! name = Some value.

(** Some record of [records] calls for a registration. *)
Definition some_due (w : world) (records : list S3EventRecord) : bool :=
  existsb (due w) records.

End HandlerMore.
(** ** Concrete codecs and worlds, for evaluating the definitions *)

Module Fixtures.

Definition hex_value (c : ascii) : Z :=
  let n := JS.code c in
  if (48 <=? n) && (n <=? 57) then n - 48
  else if (97 <=? n) && (n <=? 102) then n - 87
  else if (65 <=? n) && (n <=? 70) then n - 55
  else 0.

(** Reads two hexadecimal digits per character: the SDK's hex decoding
    followed by its UTF-8 decoding, on texts of ASCII characters. *)
Fixpoint hexToUTF8 (s : string) : string :=
  match s with
  | String a (String b rest) =>
      String (ascii_of_N (Z.to_N (16 * hex_value a + hex_value b))) (hexToUTF8 rest)
  | _ => EmptyString
  end.

Definition hex_digit (n : Z) : ascii :=
  ascii_of_N (Z.to_N (if n <? 10 then 48 + n else 87 + n)).

Fixpoint utf8ToHex (s : string) : string :=
  match s with
  | EmptyString => EmptyString
  | String c rest =>
      String (hex_digit (JS.code c / 16)) (String (hex_digit (JS.code c mod 16)) (utf8ToHex rest))
  end.

(** A wallet that answers every query with [outputs] and a store that knows
    one object of 1024 bytes under every key. *)
Definition resolver_world (outputs : list Resolver.WalletOutput) (now : Z) : Resolver.world :=
  {| Resolver.utf8ToHex := utf8ToHex;
     Resolver.hexToUTF8 := hexToUTF8;
     Resolver.listOutputs := fun _ => inr outputs;
     Resolver.now := now;
     Resolver.getObjectMetadata := fun _ =>
       inr {| StorageTypes.om_size := 1024;
              StorageTypes.om_contentType := "image/png";
              StorageTypes.om_lastModified := 0;
              StorageTypes.om_customMetadata := ∅ |} |}.

Definition advertisement (objectIdentifier expiry : string) : Resolver.WalletOutput :=
  {| Resolver.tags := Some [ "uhrp_url_00"; "uploader_identity_key_02ab";
                             "object_identifier_" +:+ utf8ToHex objectIdentifier;
                             "expiry_time_" +:+ expiry ] |}.

End Fixtures.


Module ProviderFixtures.
Import StorageTypes.

Definition gcs_env : gmap string string :=
  {[ "GCP_PROJECT_ID" := "project-1"; "STORAGE_BUCKET_NAME" := "bucket-1" ]}.

Definition aws_env : gmap string string :=
  {[ "STORAGE_PROVIDER" := "AWS"; "AWS_BUCKET_NAME" := "bucket-2" ]}.

Definition gcs_self : GCS.instance :=
  {| GCS.bucketName := "bucket-1"; GCS.projectId := "project-1" |}.

Definition s3_self : S3.instance :=
  {| S3.bucketName := "bucket-2"; S3.region := "us-west-2" |}.

(** A signer that writes the lifetime of the signature, in seconds, into the
    address it returns. *)
Definition gcs_world (now : Z) : GCS.world :=
  {| GCS.now := now;
     GCS.getSignedUrl := fun bucket file config =>
       inr ("https://storage.googleapis.com/" +:+ bucket +:+ "/" +:+ file
            +:+ "?X-Goog-Expires=" +:+ pretty ((GCS.expires config - now) / 1000)) |}.

(** A signer that returns the fields it was given, and a bucket whose
    objects all carry the same two metadata entries. *)
Definition s3_world : S3.world :=
  {| S3.createPresignedPost := fun options =>
       inr ("https://" +:+ S3.Bucket options +:+ ".s3.amazonaws.com/", S3.Fields options);
     S3.headObject := fun _ _ =>
       inr {| S3.ContentLength := Some 1024;
              S3.ContentType := Some "image/png";
              S3.LastModified := Some 0;
              S3.Metadata := Some {[ "uploaderidentitykey" := "02ab";
                                     "customtime" := "2024-01-01T00:00:00.000Z" ]} |};
     S3.copyObject := fun _ => inr tt |}.

(** The grant of the specification's scenario: 1024 bytes, expiring one hour
    after 1700000000. *)
Definition params : UploadParams :=
  {| size := 1024;
     expiryTime := 1700003600;
     objectIdentifier := "file-1";
     uploaderIdentityKey := "02ab" |}.

End ProviderFixtures.

Module HandlerFixtures.
Import EventHandler.

(** An object store in which [cdn/orphan] has no metadata entries and every
    other object carries the two bound entries. *)
Definition head_of (key : string) : HeadObjectOutput :=
  {| ContentLength := Some 1024;
     ContentType := Some "image/png";
     LastModified := Some 0;
     Metadata :=
       Some (if String.eqb key "cdn/orphan" then ∅
             else {[ "uploaderidentitykey" := "02ab";
                     "customtime" := "2023-11-14T23:18:20.000Z" ]}) |}.

(** A world in which every call returns, but the registration when
    [registers] is [false]. *)
Definition handler_world (registers : bool) : world :=
  {| ADMIN_TOKEN := Some "token";
     decodeURIComponent := fun s => Some s;
     date_parse := fun _ => Some 1700003900000;
     date_now := fun _ => 1700000000000;
     getURLForHash := fun chunks => "uhrp:" +:+ String.concat "" chunks;
     s3_head := fun _ _ key => inr (head_of key);
     s3_get := fun _ _ _ => inr tt;
     s3_read := fun _ _ _ => inr [ "bytes" ];
     http_post := fun _ _ => if registers then inr tt else inl (External "timeout");
     sqs_delete := fun _ _ => inr tt;
     sqs_receive := fun _ => inr None |}.

Definition created (key : string) : S3EventRecord :=
  {| eventName := "ObjectCreated:Post"; bucket_name := "bucket-2"; object_key := key |}.

Definition message_of (records : list S3EventRecord) (handle : string) : message :=
  {| parsed := Some {| Records := Some records |}; ReceiptHandle := handle |}.

Definition start : state :=
  {| processedEvents := 0; processingErrors := 0; trace := [] |}.

Definition registration : notificationData :=
  {| adminToken := Some "token";
     uhrpUrl := "uhrp:bytes";
     uploaderIdentityKey := "02ab";
     objectIdentifier := "file-1";
     expiryTime := Some 1700003900;
     fileSize := Some 1024 |}.

End HandlerFixtures.

Module OpsFixtures.

Definition not_found : S3Ops.ServiceError :=
  {| S3Ops.err_name := "NotFound"; S3Ops.err_message := "NotFound";
     S3Ops.httpStatusCode := Some 404 |}.

Definition access_denied : S3Ops.ServiceError :=
  {| S3Ops.err_name := "AccessDenied"; S3Ops.err_message := "Access Denied";
     S3Ops.httpStatusCode := Some 403 |}.

(** A bucket with one object, [cdn/file-1], stored without a content type;
    [cdn/secret] may not be read; every other key is absent. *)
Definition s3_ops_world : S3Ops.world :=
  {| S3Ops.now := 1700000000000;
     S3Ops.send_head := fun _ key =>
       if String.eqb key "cdn/file-1" then
         inr {| S3.ContentLength := Some 1024;
                S3.ContentType := None;
                S3.LastModified := Some 1690000000000;
                S3.Metadata := Some {[ "uploaderidentitykey" := "02ab" ]} |}
       else if String.eqb key "cdn/secret" then inl access_denied
       else inl not_found;
     S3Ops.send_delete := fun _ _ => inr tt;
     S3Ops.send_list := fun _ =>
       inr {| S3Ops.Contents := None;
              S3Ops.NextContinuationToken := None;
              S3Ops.IsTruncated := None |};
     S3Ops.send_get := fun _ _ => inr ([ "by"; "tes" ], None);
     S3Ops.presign_get := fun bucket key _ => inr ("https://" +:+ bucket +:+ "/" +:+ key) |}.

(** A bucket whose listing has two pages: the first ends with the token
    [page-2]. *)
Definition gcs_ops_world : GCSOps.world :=
  {| GCSOps.now := 1700000000000;
     GCSOps.date_parse := fun _ => Some 1690000000000;
     GCSOps.file_getMetadata := fun _ _ =>
       inr {| GCSOps.fm_size := Some "1024";
              GCSOps.fm_contentType := None;
              GCSOps.fm_updated := None;
              GCSOps.fm_timeCreated := Some "2023-07-22T04:26:40.000Z";
              GCSOps.fm_metadata := None |};
     GCSOps.file_exists := fun _ _ => inr true;
     GCSOps.file_delete := fun _ _ => inr tt;
     GCSOps.getFiles := fun _ options =>
       match GCSOps.pageToken options with
       | None =>
           inr ([ {| GCSOps.file_name := "cdn/a";
                     GCSOps.file_metadata :=
                       {| GCSOps.fm_size := Some "1"; GCSOps.fm_contentType := None;
                          GCSOps.fm_updated := None; GCSOps.fm_timeCreated := None;
                          GCSOps.fm_metadata := None |} |} ],
                Some (Some "page-2"))
       | Some _ => inr ([], None)
       end;
     GCSOps.getSignedUrl := fun bucket file _ => inr ("https://" +:+ bucket +:+ "/" +:+ file);
     GCSOps.file_download := fun _ _ => inr "bytes";
     GCSOps.file_setMetadata := fun _ _ _ => inr tt |}.

Definition first_page : Listing.ListObjectsParams :=
  {| Listing.prefix := Some "cdn/"; Listing.maxKeys := None;
     Listing.continuationToken := None |}.

End OpsFixtures.

Module UploadFixtures.

(** A presigner for the header-signed draft. *)
Definition draft_world : S3Draft.world :=
  {| S3Draft.getSignedUrl := fun command expiresIn =>
       inr ("https://" +:+ S3Draft.Bucket command +:+ ".s3.amazonaws.com/"
            +:+ S3Draft.Key command +:+ "?X-Amz-Expires=" +:+ pretty expiresIn) |}.

Definition s3_grant : StorageTypes.UploadResponse :=
  {| StorageTypes.uploadURL := "https://bucket-2.s3.amazonaws.com/";
     StorageTypes.requiredHeaders := {[ "content-type" := "multipart/form-data" ]};
     StorageTypes.formFields :=
       Some {[ "x-amz-meta-uploaderidentitykey" := "02ab";
               "x-amz-meta-customtime" := "2023-11-14T23:18:20.000Z" ]} |}.

Definition draft_grant : StorageTypes.UploadResponse :=
  {| StorageTypes.uploadURL :=
       "https://bucket-2.s3.amazonaws.com/cdn/file-1?X-Amz-Expires=604800";
     StorageTypes.requiredHeaders :=
       {[ "content-length" := "1024";
          "x-amz-meta-uploaderidentitykey" := "02ab";
          "x-amz-meta-customtime" := "2023-11-14T23:18:20.000Z" ]};
     StorageTypes.formFields := None |}.

Definition s3_provider : Storage.StorageProvider :=
  {| Storage.identity := 0; Storage.impl := Storage.S3StorageProvider ProviderFixtures.s3_self |}.

Definition s3_state : Storage.state :=
  {| Storage.storageProvider := Some s3_provider; Storage.allocated := 1 |}.

End UploadFixtures.

(** * Properties *)

(** ** The builtins *)

Example parseInt_decimal : JS.parseInt "2000" = Some 2000.
Proof. reflexivity. Qed.

Example parseInt_prefix : JS.parseInt "  -12px" = Some (-12).
Proof. reflexivity. Qed.

Example parseInt_malformed : JS.parseInt "soon" = None.
Proof. reflexivity. Qed.

Example toLowerCase_mixed : JS.toLowerCase "AwS" = "aws".
Proof. reflexivity. Qed.

Example split_slash_pop_key : JS.split_slash_pop "cdn/a/b" = "b".
Proof. reflexivity. Qed.

Example toISOString_epoch : JS.toISOString 0 = Some "1970-01-01T00:00:00.000Z".
Proof. reflexivity. Qed.

Example toISOString_leap_day : JS.toISOString 1709210096789 = Some "2024-02-29T12:34:56.789Z".
Proof. vm_compute. reflexivity. Qed.

Example toISOString_before_epoch : JS.toISOString (-1) = Some "1969-12-31T23:59:59.999Z".
Proof. vm_compute. reflexivity. Qed.

Example toISOString_out_of_range : JS.toISOString 8640000000000001 = None.
Proof. reflexivity. Qed.

Example hex_roundtrip : Fixtures.hexToUTF8 (Fixtures.utf8ToHex "file-1") = "file-1".
Proof. reflexivity. Qed.

(** *** The calendar of [toISOString] *)

(** The civil date computed for a day number is a date of the calendar, and
    it counts back to the same day number. *)
Lemma civil_roundtrip (z : Z) :
  let '(y, m, d) := JS.civil_from_days z in
  JS.days_from_civil y m d = z /\ 1 <= m <= 12 /\ 1 <= d <= 31.
Proof.
  unfold JS.civil_from_days, JS.days_from_civil.
  cbv zeta.
  set (era := (z + 719468) / 146097).
  set (doe := z + 719468 - era * 146097).
  set (yoe := (doe - doe / 1460 + doe / 36524 - doe / 146096) / 365).
  set (doy := doe - (365 * yoe + yoe / 4 - yoe / 100)).
  set (mp := (5 * doy + 2) / 153).
  set (dd := (153 * mp + 2) / 5).
  assert (Hdoe : 0 <= doe <= 146096) by (subst doe era; Z.div_mod_to_equations; lia).
  assert (Hy : 0 <= yoe <= 399 /\ 0 <= doy <= 365).
  { subst doy yoe. clearbody doe. Z.div_mod_to_equations. lia. }
  destruct Hy as [Hyoe Hdoy].
  assert (Hmp : 0 <= mp <= 11) by (subst mp; clearbody doy; Z.div_mod_to_equations; lia).
  assert (Hd : 1 <= doy - dd + 1 <= 31).
  { subst dd mp. clearbody doy. Z.div_mod_to_equations. lia. }
  assert (He : (yoe + era * 400) / 400 = era).
  { clearbody yoe era. Z.div_mod_to_equations. lia. }
  destruct (mp <? 10) eqn:Hlt.
  - apply Z.ltb_lt in Hlt.
    replace (mp + 3 <=? 2) with false by (symmetry; apply Z.leb_gt; lia).
    replace (mp + 3 >? 2) with true by (symmetry; rewrite Z.gtb_ltb; apply Z.ltb_lt; lia).
    replace (mp + 3 - 3) with mp by lia.
    fold dd. rewrite He.
    replace (yoe + era * 400 - era * 400) with yoe by lia.
    split; [|lia]. subst doy doe. lia.
  - apply Z.ltb_ge in Hlt.
    replace (mp - 9 <=? 2) with true by (symmetry; apply Z.leb_le; lia).
    replace (mp - 9 >? 2) with false by (symmetry; rewrite Z.gtb_ltb; apply Z.ltb_ge; lia).
    replace (mp - 9 + 9) with mp by lia.
    replace (yoe + era * 400 + 1 - 1) with (yoe + era * 400) by lia.
    fold dd. rewrite He.
    replace (yoe + era * 400 - era * 400) with yoe by lia.
    split; [|lia]. subst doy doe. lia.
Qed.

(** The UTC fields of a time value denote that time value. *)
Lemma utc_roundtrip (t : Z) : JS.time_of_utc (JS.utc_of_time t) = t.
Proof.
  unfold JS.time_of_utc, JS.utc_of_time.
  pose proof (civil_roundtrip (t / 86400000)) as H.
  destruct (JS.civil_from_days (t / 86400000)) as [[y m] d].
  destruct H as [H _]. cbn. rewrite H.
  Z.div_mod_to_equations. lia.
Qed.

Lemma utc_fields_ranges (t : Z) :
  1 <= JS.utc_month (JS.utc_of_time t) <= 12 /\
  1 <= JS.utc_day (JS.utc_of_time t) <= 31 /\
  0 <= JS.utc_hours (JS.utc_of_time t) <= 23 /\
  0 <= JS.utc_minutes (JS.utc_of_time t) <= 59 /\
  0 <= JS.utc_seconds (JS.utc_of_time t) <= 59 /\
  0 <= JS.utc_ms (JS.utc_of_time t) <= 999.
Proof.
  unfold JS.utc_of_time.
  pose proof (civil_roundtrip (t / 86400000)) as H.
  destruct (JS.civil_from_days (t / 86400000)) as [[y m] d].
  destruct H as (_ & Hm & Hd). cbn.
  split; [exact Hm|]. split; [exact Hd|].
  Z.div_mod_to_equations. lia.
Qed.

(** When [toISOString] returns, it returns the text of fields that denote
    the time value it was given. *)
Lemma toISOString_denotes (t : Z) (text : string) :
  JS.toISOString t = Some text ->
  text = JS.iso_text (JS.utc_of_time t) /\ JS.time_of_utc (JS.utc_of_time t) = t.
Proof.
  unfold JS.toISOString. destruct (Z.abs t >? 8640000000000000); [discriminate|].
  intros [= <-]. split; [reflexivity|apply utc_roundtrip].
Qed.

(** ** The resolver, [getMetadata] *)

Section ResolverFacts.
Import Resolver ResolverSpec.
Variable w : world.

Lemma gtb_le (a b : Z) : a <= b -> (a >? b) = false.
Proof. intros H. rewrite Z.gtb_ltb. apply Z.ltb_ge. exact H. Qed.

Lemma gtb_gt (a b : Z) : b < a -> (a >? b) = true.
Proof. intros H. rewrite Z.gtb_ltb. apply Z.ltb_lt. exact H. Qed.

Lemma expiryNum_malformed (expiryTag : string) :
  JS.parseInt (JS.substring 12 expiryTag) = None -> expiryNum expiryTag = 0.
Proof. unfold expiryNum. now intros ->. Qed.

Lemma scan_step_reading (st : scan_state) (out : WalletOutput) :
  scan_step w st out =
    match reading out with
    | Some (e, t) => if e >? maxpiry st then selected w e t else st
    | None => st
    end.
Proof.
  unfold scan_step, reading. destruct (candidate out) as [[o x]|]; reflexivity.
Qed.

(** Outputs that do not beat the running maximum leave the state alone. *)
Lemma fold_scan_no_better (outputs : list WalletOutput) (st : scan_state) :
  (forall o e t, o ∈ outputs -> reading o = Some (e, t) -> e <= maxpiry st) ->
  fold_left (scan_step w) outputs st = st.
Proof.
  induction outputs as [|out rest IH]; intros Hle; [reflexivity|].
  cbn [fold_left]. rewrite scan_step_reading.
  destruct (reading out) as [[e t]|] eqn:Hr.
  - assert (e <= maxpiry st) by (eapply Hle; [left|exact Hr]).
    rewrite (gtb_le _ _ H).
    apply IH. intros o e' t' Ho. apply Hle. now right.
  - apply IH. intros o e' t' Ho. apply Hle. now right.
Qed.

(** Outputs below [e] keep the running maximum below [e]. *)
Lemma fold_scan_below (e : Z) (outputs : list WalletOutput) (st : scan_state) :
  (forall o e' t', o ∈ outputs -> reading o = Some (e', t') -> e' < e) ->
  maxpiry st < e ->
  maxpiry (fold_left (scan_step w) outputs st) < e.
Proof.
  revert st. induction outputs as [|out rest IH]; intros st Hlt Hst; [exact Hst|].
  cbn [fold_left]. apply IH.
  - intros o e' t' Ho. apply Hlt. now right.
  - rewrite scan_step_reading. destruct (reading out) as [[e' t']|] eqn:Hr; [|exact Hst].
    destruct (e' >? maxpiry st); [|exact Hst].
    cbn. eapply Hlt; [left|exact Hr].
Qed.

Lemma scan_greatest_first (outputs : list WalletOutput) (e : Z) (t : string) :
  greatest_first outputs e t ->
  scan w outputs = if 0 <? e then selected w e t else scan_init.
Proof.
  intros (pre & out & post & -> & Hr & Hpre & Hpost).
  unfold scan. destruct (0 <? e) eqn:Hpos.
  - apply Z.ltb_lt in Hpos.
    rewrite fold_left_app. cbn [fold_left].
    pose proof (fold_scan_below e pre scan_init Hpre Hpos) as Hbelow.
    rewrite (scan_step_reading _ out), Hr.
    rewrite (gtb_gt _ _ Hbelow).
    apply fold_scan_no_better. exact Hpost.
  - apply Z.ltb_ge in Hpos.
    apply fold_scan_no_better. cbn.
    intros o e' t' Ho Hro.
    apply elem_of_app in Ho as [Ho|Ho].
    + specialize (Hpre _ _ _ Ho Hro). lia.
    + apply elem_of_cons in Ho as [->|Ho].
      * rewrite Hr in Hro. injection Hro as <- <-. exact Hpos.
      * specialize (Hpost _ _ _ Ho Hro). lia.
Qed.

Lemma scan_untagged (outputs : list WalletOutput) :
  (forall out, out ∈ outputs -> reading out = None) ->
  scan w outputs = scan_init.
Proof.
  intros Hnone. apply fold_scan_no_better.
  intros o e t Ho Hr. rewrite (Hnone o Ho) in Hr. discriminate.
Qed.

(** A list with a tagged output has a first output of greatest expiry. *)
Lemma greatest_first_exists (outputs : list WalletOutput) :
  (forall out, out ∈ outputs -> reading out = None) \/
  (exists e t, greatest_first outputs e t).
Proof.
  induction outputs as [|out rest IH].
  - left. intros out Hout. now apply elem_of_nil in Hout.
  - destruct (reading out) as [[e0 t0]|] eqn:Hr0.
    + right. destruct IH as [Hnone | (e & t & pre & o & post & -> & Hr & Hpre & Hpost)].
      * exists e0, t0, [], out, rest. repeat split; try assumption.
        -- intros o e' t' Ho. now apply elem_of_nil in Ho.
        -- intros o e' t' Ho Hro. rewrite (Hnone o Ho) in Hro. discriminate.
      * destruct (Z_lt_le_dec e0 e) as [Hlt|Hge].
        -- exists e, t, (out :: pre), o, post. repeat split; try assumption.
           intros o' e' t' Ho' Hro'. apply elem_of_cons in Ho' as [->|Ho'].
           ++ rewrite Hr0 in Hro'. injection Hro' as <- <-. exact Hlt.
           ++ eapply Hpre; eassumption.
        -- exists e0, t0, [], out, (pre ++ o :: post). repeat split; try assumption.
           ++ intros o' e' t' Ho'. now apply elem_of_nil in Ho'.
           ++ intros o' e' t' Ho' Hro'. apply elem_of_app in Ho' as [Ho'|Ho'].
              ** specialize (Hpre _ _ _ Ho' Hro'). lia.
              ** apply elem_of_cons in Ho' as [->|Ho'].
                 --- rewrite Hr in Hro'. injection Hro' as <- <-. exact Hge.
                 --- specialize (Hpost _ _ _ Ho' Hro'). lia.
    + destruct IH as [Hnone | (e & t & pre & o & post & -> & Hr & Hpre & Hpost)].
      * left. intros o Ho. apply elem_of_cons in Ho as [->|Ho]; [exact Hr0|now apply Hnone].
      * right. exists e, t, (out :: pre), o, post. repeat split; try assumption.
        intros o' e' t' Ho' Hro'. apply elem_of_cons in Ho' as [->|Ho'].
        -- rewrite Hr0 in Hro'. discriminate.
        -- eapply Hpre; eassumption.
Qed.

(** C1 (as amended).  The loop of [getMetadata] is a total function of the
    outputs: an expiry tag that does not parse reads as 0 and the loop goes on.
    It ends on the first output, in store order, of greatest parsed expiry among
    those carrying both tags when that expiry is greater than 0; when the
    greatest expiry is 0 or less, or no output carries both tags, it ends as it
    started, with nothing selected. *)
Theorem getMetadata_scan_selects (outputs : list WalletOutput) :
  (forall expiryTag,
      JS.parseInt (JS.substring 12 expiryTag) = None -> expiryNum expiryTag = 0) /\
  (forall e t,
      greatest_first outputs e t ->
      scan w outputs = if 0 <? e then selected w e t else scan_init) /\
  ((forall out, out ∈ outputs -> reading out = None) -> scan w outputs = scan_init) /\
  ((forall out, out ∈ outputs -> reading out = None) \/
   (exists e t, greatest_first outputs e t)).
Proof.
  split; [exact expiryNum_malformed|].
  split; [exact (scan_greatest_first outputs)|].
  split; [exact (scan_untagged outputs)|].
  exact (greatest_first_exists outputs).
Qed.

End ResolverFacts.

Section ResolverOutcome.
Import Resolver ResolverSpec.
Variable w : world.

(** The test of line 52 in terms of the outputs. *)
Lemma scan_found_falsy (outputs : list WalletOutput) :
  JS.truthy_opt (found (scan w outputs)) = false <->
  (forall e t, greatest_first outputs e t -> 0 < e -> hexToUTF8 w (JS.substring 18 t) = "").
Proof.
  split.
  - intros H e t Hgf Hpos.
    rewrite (scan_greatest_first w outputs e t Hgf) in H.
    apply Z.ltb_lt in Hpos. rewrite Hpos in H.
    unfold selected in H. cbn [found JS.truthy_opt] in H.
    destruct (hexToUTF8 w (JS.substring 18 t)); [reflexivity|discriminate H].
  - intros H. destruct (greatest_first_exists outputs) as [Hnone|(e & t & Hgf)].
    + now rewrite (scan_untagged w outputs Hnone).
    + rewrite (scan_greatest_first w outputs e t Hgf).
      destruct (0 <? e) eqn:Hpos; [|reflexivity].
      unfold selected. cbn [found JS.truthy_opt].
      rewrite (H e t Hgf); [reflexivity|now apply Z.ltb_lt].
Qed.

(** C3 (as amended).  Once the wallet has answered, [getMetadata] fails with
    NoAdvertisementFound exactly when there is no output with both tags and a
    parsed expiry greater than 0 whose identifier decodes to a non-empty text
    at the first place of greatest expiry.  When there is one, the outcome is
    AdvertisementExpired, an error of the storage adapter let through, or a
    record. *)
Theorem getMetadata_no_advertisement (uhrpUrl uploaderIdentityKey : string)
    (limit offset : option Z) (outputs : list WalletOutput) :
  listOutputs w (listOutputsArgs w uhrpUrl uploaderIdentityKey limit offset) = inr outputs ->
  (getMetadata w uhrpUrl uploaderIdentityKey limit offset
     = inl (NoAdvertisementFound uhrpUrl uploaderIdentityKey)
   <-> (forall e t, greatest_first outputs e t -> 0 < e ->
          hexToUTF8 w (JS.substring 18 t) = "")) /\
  (forall e t,
      greatest_first outputs e t -> 0 < e -> hexToUTF8 w (JS.substring 18 t) <> "" ->
      getMetadata w uhrpUrl uploaderIdentityKey limit offset = inl (AdvertisementExpired uhrpUrl) \/
      (exists message,
          getMetadata w uhrpUrl uploaderIdentityKey limit offset = inl (Propagated message)) \/
      (exists r, getMetadata w uhrpUrl uploaderIdentityKey limit offset = inr r)).
Proof.
  intros Hq. unfold getMetadata. rewrite Hq. cbv zeta.
  pose proof (scan_found_falsy outputs) as Hfalsy.
  destruct (JS.truthy_opt (found (scan w outputs))) eqn:Htruthy; cbn [negb].
  - split.
    + split.
      * intros Hno.
        destruct (now w >? maxpiry (scan w outputs) * 1000); [discriminate|].
        destruct (getObjectMetadata w _); discriminate.
      * intros Hall. apply Hfalsy in Hall. discriminate.
    + intros e t _ _ _.
      destruct (now w >? maxpiry (scan w outputs) * 1000); [now left|right].
      destruct (getObjectMetadata w _) as [message|metadata]; [left|right]; eauto.
  - split.
    + split; [intros _; now apply Hfalsy|reflexivity].
    + intros e t Hgf Hpos Hne. exfalso. apply Hne.
      destruct Hfalsy as [Hfalsy _]. exact (Hfalsy eq_refl e t Hgf Hpos).
Qed.


End ResolverOutcome.

Section ResolverExamples.
Import Resolver ResolverSpec.

(** The scenario of the specification: expiries 1000 and 2000. *)
Example scan_picks_2000 :
  scan (Fixtures.resolver_world [] 0)
    [Fixtures.advertisement "first" "1000"; Fixtures.advertisement "second" "2000"]
  = {| maxpiry := 2000; found := Some "second" |}.
Proof. reflexivity. Qed.

Example scan_tie_keeps_first :
  scan (Fixtures.resolver_world [] 0)
    [Fixtures.advertisement "first" "2000"; Fixtures.advertisement "second" "2000"]
  = {| maxpiry := 2000; found := Some "first" |}.
Proof. reflexivity. Qed.

Example scan_malformed_goes_on :
  scan (Fixtures.resolver_world [] 0)
    [Fixtures.advertisement "first" "soon"; Fixtures.advertisement "second" "2000"]
  = {| maxpiry := 2000; found := Some "second" |}.
Proof. reflexivity. Qed.

(** C1, counterexample.  A single output with both tags whose expiry tag
    does not parse is the first output of greatest parsed expiry (0), and the
    loop ends with nothing selected. *)
Lemma getMetadata_scan_skips_unparsed_expiry :
  ~ selects_greatest (Fixtures.resolver_world [] 0) [Fixtures.advertisement "ab" "soon"].
Proof.
  intros Hsel.
  specialize (Hsel 0 "object_identifier_6162").
  assert (Hgf : greatest_first [Fixtures.advertisement "ab" "soon"] 0 "object_identifier_6162").
  { exists [], (Fixtures.advertisement "ab" "soon"), []. repeat split.
    - intros o e' t' Ho. now apply elem_of_nil in Ho.
    - intros o e' t' Ho. now apply elem_of_nil in Ho. }
  specialize (Hsel Hgf). vm_compute in Hsel. discriminate.
Qed.

(** C3, counterexample.  The only output has both tags and the expiry 0;
    [getMetadata] fails with NoAdvertisementFound although an output has both
    tags. *)
Lemma getMetadata_no_advertisement_with_tagged_output :
  ~ fails_iff_untagged (Fixtures.resolver_world [Fixtures.advertisement "ab" "0"] 0)
      "uhrp" "02ab" [Fixtures.advertisement "ab" "0"].
Proof.
  intros [Hfails _].
  assert (Hnone : candidate (Fixtures.advertisement "ab" "0") = None).
  { apply Hfails; [reflexivity|left]. }
  vm_compute in Hnone. discriminate.
Qed.

(** C3, witness: the theorem at a wallet with one advertisement that expires
    an hour after the clock's reading. *)
Lemma getMetadata_no_advertisement_witness :
  let outputs := [Fixtures.advertisement "file-1" "1700003600"] in
  let w := Fixtures.resolver_world outputs 1700000000000 in
  (getMetadata w "uhrp" "02ab" None None = inl (NoAdvertisementFound "uhrp" "02ab")
   <-> (forall e t, greatest_first outputs e t -> 0 < e ->
          hexToUTF8 w (JS.substring 18 t) = "")) /\
  (forall e t,
      greatest_first outputs e t -> 0 < e -> hexToUTF8 w (JS.substring 18 t) <> "" ->
      getMetadata w "uhrp" "02ab" None None = inl (AdvertisementExpired "uhrp") \/
      (exists message, getMetadata w "uhrp" "02ab" None None = inl (Propagated message)) \/
      (exists r, getMetadata w "uhrp" "02ab" None None = inr r)).
Proof.
  exact (getMetadata_no_advertisement
           (Fixtures.resolver_world [Fixtures.advertisement "file-1" "1700003600"] 1700000000000)
           "uhrp" "02ab" None None [Fixtures.advertisement "file-1" "1700003600"] eq_refl).
Defined.

(** C2, the code at a failing input.  The clock reads 1700000000000 ms and
    the advertisement expires at 1700003600 s, one hour later.  The record
    carries 1700003600 in [expiryTime], the number of seconds, where the
    interface documents minutes since the epoch (28333393). *)
Lemma getMetadata_expiryTime_is_seconds :
  getMetadata
    (Fixtures.resolver_world [Fixtures.advertisement "file-1" "1700003600"] 1700000000000)
    "uhrp" "02ab" None None
  = inr {| objectIdentifier := "file-1";
           name := "cdn/file-1";
           size := "1024";
           contentType := "image/png";
           expiryTime := 1700003600 |}.
Proof. vm_compute. reflexivity. Qed.

End ResolverExamples.

(** ** The providers: upload grants *)

Section UploadGrants.
Import StorageTypes.

(** Every grant of the GCS provider comes from the signer, applied to the
    configuration of lines 50-58 for the custom time of line 46. *)
Lemma GCS_generateUploadURL_inv (w : GCS.world) (self : GCS.instance) (p : UploadParams)
    (r : UploadResponse) :
  GCS.generateUploadURL w self p = inr r ->
  exists customTime,
    JS.toISOString ((expiryTime p + 300) * 1000) = Some customTime /\
    GCS.getSignedUrl w (GCS.bucketName self) ("cdn/" +:+ objectIdentifier p)
      (GCS.uploadConfig w p customTime) = inr (uploadURL r) /\
    requiredHeaders r = GCS.uploadHeaders p customTime /\
    formFields r = None.
Proof.
  unfold GCS.generateUploadURL.
  destruct (JS.toISOString _) as [customTime|]; [|discriminate].
  destruct (GCS.getSignedUrl w _ _ _) as [e|url] eqn:Hsign; [discriminate|].
  intros [= <-]. exists customTime. cbn. auto.
Qed.

(** Every grant of the S3 provider comes from the signer, applied to the
    options of lines 55-68 for the custom time of line 51. *)
Lemma S3_generateUploadURL_inv (w : S3.world) (self : S3.instance) (p : UploadParams)
    (r : UploadResponse) :
  S3.generateUploadURL w self p = inr r ->
  exists customTime fields,
    JS.toISOString ((expiryTime p + 300) * 1000) = Some customTime /\
    S3.createPresignedPost w (S3.uploadOptions self p customTime) = inr (uploadURL r, fields) /\
    formFields r = Some fields.
Proof.
  unfold S3.generateUploadURL.
  destruct (JS.toISOString _) as [customTime|]; [|discriminate].
  destruct (S3.createPresignedPost w _) as [e|[url fields]] eqn:Hsign; [discriminate|].
  intros [= <-]. exists customTime, fields. cbn. auto.
Qed.


(** The lifetimes the two providers ask of their signers. *)
Lemma upload_lifetimes (gw : GCS.world) (sself : S3.instance) (p : UploadParams)
    (customTime : string) :
  GCS.expires (GCS.uploadConfig gw p customTime) - GCS.now gw = 604000 * 1000 /\
  S3.Expires (S3.uploadOptions sself p customTime) = 604800.
Proof. cbn. split; [lia|reflexivity]. Qed.

End UploadGrants.

(** The scenario of the specification: the custom time is 3900 seconds after
    1700000000, for both providers. *)
Example GCS_grant_scenario :
  GCS.generateUploadURL (ProviderFixtures.gcs_world 1700000000000)
    ProviderFixtures.gcs_self ProviderFixtures.params
  = inr {| StorageTypes.uploadURL :=
             "https://storage.googleapis.com/bucket-1/cdn/file-1?X-Goog-Expires=604000";
           StorageTypes.requiredHeaders :=
             {[ "content-length" := "1024";
                "x-goog-meta-uploaderidentitykey" := "02ab";
                "x-goog-custom-time" := "2023-11-14T23:18:20.000Z" ]};
           StorageTypes.formFields := None |}.
Proof. vm_compute. reflexivity. Qed.

Example S3_grant_scenario :
  S3.generateUploadURL ProviderFixtures.s3_world ProviderFixtures.s3_self ProviderFixtures.params
  = inr {| StorageTypes.uploadURL := "https://bucket-2.s3.amazonaws.com/";
           StorageTypes.requiredHeaders := {[ "content-type" := "multipart/form-data" ]};
           StorageTypes.formFields :=
             Some {[ "x-amz-meta-uploaderidentitykey" := "02ab";
                     "x-amz-meta-customtime" := "2023-11-14T23:18:20.000Z" ]} |}.
Proof. vm_compute. reflexivity. Qed.

(** C6, the code at a failing input.  For the grant of the scenario, issued
    at 1700000000000 ms, the GCS provider asks for a signature that expires
    604000 seconds later, 800 seconds short of the week (604800 seconds) that
    the S3 provider asks for. *)
Lemma GCS_grant_window_is_604000 :
  GCS.expires (GCS.uploadConfig (ProviderFixtures.gcs_world 1700000000000)
                 ProviderFixtures.params "2023-11-14T23:18:20.000Z")
    = 1700000000000 + 604000 * 1000 /\
  S3.Expires (S3.uploadOptions ProviderFixtures.s3_self
                ProviderFixtures.params "2023-11-14T23:18:20.000Z") = 604800.
Proof. split; reflexivity. Qed.

(** ** The S3 provider: [updateObjectMetadata] *)

Section MetadataUpdate.
Import ProviderSpec.










End MetadataUpdate.

Example newMetadata_merge :
  S3.newMetadata (Some {[ "uploaderidentitykey" := "02ab"; "customtime" := "old" ]})
    [ ("customTime", "new"); ("Owner", "me") ]
  = {[ "uploaderidentitykey" := "02ab"; "customtime" := "new"; "owner" := "me" ]}.
Proof. vm_compute. reflexivity. Qed.



(** ** The provider factory, [getStorageProvider] *)

Section StorageFacts.
Import Storage StorageSpec.

Lemma providerType_unset (env : gmap string string) :
  env !! "STORAGE_PROVIDER" = None \/ env !! "STORAGE_PROVIDER" = Some "" ->
  providerType env = "gcs".
Proof. unfold providerType. now intros [-> | ->]. Qed.

Lemma providerType_set (env : gmap string string) (v : string) :
  env !! "STORAGE_PROVIDER" = Some v -> v <> "" ->
  providerType env = JS.toLowerCase v.
Proof.
  unfold providerType. intros -> Hv. destruct v; [contradiction|reflexivity].
Qed.

Lemma getStorageProvider_first (env : gmap string string) (st : state) :
  storageProvider st = None ->
  getStorageProvider env st =
    if String.eqb (providerType env) "gcs" then
      match GCS.new env with
      | inl e => (inl (GCSFailed e), st)
      | inr self => install (GCSStorageProvider self) st
      end
    else if String.eqb (providerType env) "aws" then
      match S3.new env with
      | inl e => (inl (S3Failed e), st)
      | inr self => install (S3StorageProvider self) st
      end
    else (inl (UnsupportedProvider (providerType env)), st).
Proof. unfold getStorageProvider, providerType. now intros ->. Qed.

Lemma getStorageProvider_cached (env : gmap string string) (st : state) (p : StorageProvider) :
  storageProvider st = Some p -> getStorageProvider env st = (inr p, st).
Proof. unfold getStorageProvider. now intros ->. Qed.

(** A call that returns a provider leaves it in the module variable. *)
Lemma getStorageProvider_stores (env : gmap string string) (st st' : state)
    (p : StorageProvider) :
  getStorageProvider env st = (inr p, st') -> storageProvider st' = Some p.
Proof.
  unfold getStorageProvider.
  destruct (storageProvider st) as [q|] eqn:Hq.
  - intros [= <- <-]. exact Hq.
  - destruct (String.eqb _ "gcs").
    + destruct (GCS.new env); [discriminate|]. unfold install. now intros [= <- <-].
    + destruct (String.eqb _ "aws"); [|discriminate].
      destruct (S3.new env); [discriminate|]. unfold install. now intros [= <- <-].
Qed.

(** C10 (as amended).  On a call that finds no provider yet:
    when STORAGE_PROVIDER is unset, empty, or reads [gcs] in any case, the GCS
    provider is constructed, returned and kept, unless its constructor throws;
    when it reads [aws] in any case, the same holds of the S3 provider; for
    every other value the call throws and keeps nothing.  A constructor's error
    is thrown and nothing is kept.  Once a call has returned a provider, every
    later call returns that same object, whatever the environment then holds. *)
Theorem getStorageProvider_selects (env : gmap string string) (st : state) :
  storageProvider st = None ->
  ((env !! "STORAGE_PROVIDER" = None \/ env !! "STORAGE_PROVIDER" = Some "" \/
    exists v, env !! "STORAGE_PROVIDER" = Some v /\ JS.toLowerCase v = "gcs") ->
   getStorageProvider env st =
     match GCS.new env with
     | inl e => (inl (GCSFailed e), st)
     | inr self => install (GCSStorageProvider self) st
     end) /\
  ((exists v, env !! "STORAGE_PROVIDER" = Some v /\ JS.toLowerCase v = "aws") ->
   getStorageProvider env st =
     match S3.new env with
     | inl e => (inl (S3Failed e), st)
     | inr self => install (S3StorageProvider self) st
     end) /\
  (forall v, env !! "STORAGE_PROVIDER" = Some v -> v <> "" ->
     JS.toLowerCase v <> "gcs" -> JS.toLowerCase v <> "aws" ->
     getStorageProvider env st = (inl (UnsupportedProvider (JS.toLowerCase v)), st)) /\
  (forall p st', getStorageProvider env st = (inr p, st') ->
     identity p = allocated st /\
     forall env', getStorageProvider env' st' = (inr p, st')).
Proof.
  intros Hnone. rewrite (getStorageProvider_first env st Hnone).
  split; [|split; [|split]].
  - intros Hgcs.
    assert (Ht : providerType env = "gcs").
    { destruct Hgcs as [H|[H|(v & H & Hv)]].
      - apply providerType_unset. now left.
      - apply providerType_unset. now right.
      - destruct v as [|c v']; [discriminate Hv|].
        now rewrite (providerType_set env _ H). }
    now rewrite Ht.
  - intros (v & H & Hv).
    assert (Ht : providerType env = "aws").
    { destruct v as [|c v']; [discriminate Hv|]. now rewrite (providerType_set env _ H). }
    now rewrite Ht.
  - intros v H Hne Hg Ha. rewrite (providerType_set env v H Hne).
    destruct (String.eqb_spec (JS.toLowerCase v) "gcs"); [contradiction|].
    destruct (String.eqb_spec (JS.toLowerCase v) "aws"); [contradiction|].
    reflexivity.
  - intros p st' Hret. split.
    + destruct (String.eqb _ "gcs").
      * destruct (GCS.new env); [discriminate|]. unfold install in Hret. now injection Hret as <- <-.
      * destruct (String.eqb _ "aws"); [|discriminate].
        destruct (S3.new env); [discriminate|]. unfold install in Hret. now injection Hret as <- <-.
    + intros env'. apply getStorageProvider_cached.
      rewrite <- (getStorageProvider_first env st Hnone) in Hret.
      exact (getStorageProvider_stores env st st' p Hret).
Qed.

End StorageFacts.

Section StorageExamples.
Import Storage.

Example getStorageProvider_default_is_gcs :
  getStorageProvider ProviderFixtures.gcs_env initial
  = (inr {| identity := 0; impl := GCSStorageProvider ProviderFixtures.gcs_self |},
     {| storageProvider :=
          Some {| identity := 0; impl := GCSStorageProvider ProviderFixtures.gcs_self |};
        allocated := 1 |}).
Proof. vm_compute. reflexivity. Qed.

Example getStorageProvider_AWS_is_s3 :
  (getStorageProvider ProviderFixtures.aws_env initial).1
  = inr {| identity := 0; impl := S3StorageProvider ProviderFixtures.s3_self |}.
Proof. vm_compute. reflexivity. Qed.

Example getStorageProvider_unknown_throws :
  getStorageProvider {[ "STORAGE_PROVIDER" := "Azure" ]} initial
  = (inl (UnsupportedProvider "azure"), initial).
Proof. vm_compute. reflexivity. Qed.

Example getStorageProvider_missing_bucket_throws :
  getStorageProvider {[ "STORAGE_PROVIDER" := "aws" ]} initial
  = (inl (S3Failed (S3.MissingEnvironment
                      "Missing required AWS S3 bucket name environment variable.")),
     initial).
Proof. vm_compute. reflexivity. Qed.

(** C10, counterexample.  STORAGE_PROVIDER is set, to the empty text, which
    reads neither [gcs] nor [aws]; the call returns the GCS provider instead
    of throwing. *)
Lemma getStorageProvider_empty_name_is_gcs :
  ~ StorageSpec.selects_by_name (<["STORAGE_PROVIDER" := ""]> ProviderFixtures.gcs_env).
Proof.
  unfold StorageSpec.selects_by_name.
  replace (<["STORAGE_PROVIDER" := ""]> ProviderFixtures.gcs_env !! "STORAGE_PROVIDER")
    with (Some "") by (symmetry; apply lookup_insert_eq).
  cbn. intros (e & st & Hthrows). vm_compute in Hthrows. discriminate.
Qed.

(** C10, witness: the theorem at an environment without STORAGE_PROVIDER,
    before any provider has been constructed. *)
Lemma getStorageProvider_selects_witness :
  let env := ProviderFixtures.gcs_env in
  let st := initial in
  ((env !! "STORAGE_PROVIDER" = None \/ env !! "STORAGE_PROVIDER" = Some "" \/
    exists v, env !! "STORAGE_PROVIDER" = Some v /\ JS.toLowerCase v = "gcs") ->
   getStorageProvider env st =
     match GCS.new env with
     | inl e => (inl (GCSFailed e), st)
     | inr self => install (GCSStorageProvider self) st
     end) /\
  ((exists v, env !! "STORAGE_PROVIDER" = Some v /\ JS.toLowerCase v = "aws") ->
   getStorageProvider env st =
     match S3.new env with
     | inl e => (inl (S3Failed e), st)
     | inr self => install (S3StorageProvider self) st
     end) /\
  (forall v, env !! "STORAGE_PROVIDER" = Some v -> v <> "" ->
     JS.toLowerCase v <> "gcs" -> JS.toLowerCase v <> "aws" ->
     getStorageProvider env st = (inl (UnsupportedProvider (JS.toLowerCase v)), st)) /\
  (forall p st', getStorageProvider env st = (inr p, st') ->
     identity p = allocated st /\
     forall env', getStorageProvider env' st' = (inr p, st')).
Proof.
  exact (getStorageProvider_selects ProviderFixtures.gcs_env initial eq_refl).
Defined.

End StorageExamples.

(** ** The ingestion pipeline, [event-handler.js] *)

Section HandlerFacts.
Import EventHandler HandlerSpec.
Local Open Scope handler_scope.
Variable w : world.

Lemma quiet_app (a b : list call) : quiet a -> quiet b -> quiet (a ++ b).
Proof. unfold quiet. intros. now apply Forall_app. Qed.

Lemma clean_app (a b : list call) : clean a -> clean b -> clean (a ++ b).
Proof. unfold clean. intros. now apply Forall_app. Qed.

Lemma clean_quiet (evs : list call) : clean evs -> quiet evs.
Proof. unfold clean, quiet. intros H. eapply Forall_impl; [exact H|]. now intros c [Hc _]. Qed.

Lemma posts_app (a b : list call) : posts (a ++ b) = (posts a + posts b)%nat.
Proof. unfold posts. now rewrite List.filter_app, length_app. Qed.

(** What [advertise] adds to the log: never a delete; when it returns, four
    calls that all returned, one of them the registration. *)
Lemma advertise_log (bucketName objectKey : string) (s : state) :
  exists evs,
    trace (advertise w bucketName objectKey s).2 = trace s ++ evs /\
    quiet evs /\
    processingErrors (advertise w bucketName objectKey s).2 = processingErrors s /\
    match (advertise w bucketName objectKey s).1 with
    | inr _ => clean evs /\ posts evs = 1%nat
    | inl _ => True
    end.
Proof.
  unfold advertise, bind, perform. cbn [fst snd trace processingErrors processedEvents].
  destruct (s3_head w (trace s) bucketName objectKey) as [e|metadata].
  { eexists [_]. cbn. repeat split. repeat constructor. }
  cbn [succeeded].
  set (s1 := {| processedEvents := processedEvents s;
                processingErrors := processingErrors s;
                trace := trace s ++ [(HeadObject bucketName objectKey, true)] |}).
  assert (Hkey : (exists k, requireUploaderIdentityKey metadata s1 = (inr k, s1)) \/
                 requireUploaderIdentityKey metadata s1 = (inl MissingUploaderIdentityKey, s1)).
  { unfold requireUploaderIdentityKey.
    destruct (Metadata metadata) as [md|]; [|now right].
    destruct (md !! "uploaderidentitykey") as [k|]; [|now right].
    destruct (JS.truthy k); [left; now exists k|now right]. }
  destruct Hkey as [(k & ->)| ->].
  2:{ eexists [_]. cbn. repeat split. repeat constructor. }
  assert (Hexp : exists x, expiryOf w metadata s1 = (inr x, s1)).
  { unfold expiryOf, bind, clock, ret.
    destruct (Metadata metadata) as [md|]; [|eauto].
    destruct (md !! "customtime") as [c|]; [|eauto].
    destruct (JS.truthy c); eauto. }
  destruct Hexp as (x & ->).
  cbn [trace processingErrors processedEvents s1].
  destruct (s3_get w _ bucketName objectKey) as [e|[]].
  { eexists [_; _]. cbn. rewrite <- app_assoc. repeat split. repeat constructor. }
  cbn [succeeded trace processingErrors processedEvents].
  destruct (s3_read w _ bucketName objectKey) as [e|chunks].
  { eexists [_; _; _]. cbn. rewrite <- !app_assoc. repeat split. repeat constructor. }
  cbn [succeeded trace processingErrors processedEvents].
  destruct (http_post w _ _) as [e|[]].
  { eexists [_; _; _; _]. cbn. rewrite <- !app_assoc. repeat split. repeat constructor. }
  eexists [_; _; _; _]. cbn. rewrite <- !app_assoc. repeat split; repeat constructor.
Qed.

(** An object outside [cdn/] is skipped: no call, no counter, no exception. *)
Lemma processS3Object_skips (bucketName objectKey : string) (s : state) :
  JS.startsWith "cdn/" objectKey = false ->
  processS3Object w bucketName objectKey s = (inr tt, s).
Proof. unfold processS3Object. now intros ->. Qed.

Lemma processS3Object_log (bucketName objectKey : string) (s : state) :
  exists evs,
    trace (processS3Object w bucketName objectKey s).2 = trace s ++ evs /\
    quiet evs /\
    match (processS3Object w bucketName objectKey s).1 with
    | inr _ =>
        clean evs /\
        posts evs = (if JS.startsWith "cdn/" objectKey then 1 else 0)%nat /\
        processingErrors (processS3Object w bucketName objectKey s).2 = processingErrors s
    | inl _ => True
    end.
Proof.
  unfold processS3Object.
  destruct (JS.startsWith "cdn/" objectKey); cbn [negb].
  - destruct (advertise_log bucketName objectKey s) as (evs & Htrace & Hquiet & Herr & Hres).
    exists evs. unfold try_catch.
    destruct (advertise w bucketName objectKey s) as [[e|[]] s'] eqn:Hadv; cbn in *.
    + auto.
    + destruct Hres as [Hclean Hposts]. auto.
  - exists []. cbn. rewrite app_nil_r. repeat split; constructor.
Qed.

Lemma processRecord_log (record : S3EventRecord) (s : state) :
  exists evs,
    trace (processRecord w record s).2 = trace s ++ evs /\
    quiet evs /\
    match (processRecord w record s).1 with
    | inr _ =>
        clean evs /\
        posts evs = (if due w record then 1 else 0)%nat /\
        processingErrors (processRecord w record s).2 = processingErrors s
    | inl _ => True
    end.
Proof.
  unfold processRecord, due.
  destruct (JS.startsWith "ObjectCreated:" (eventName record)); cbn [andb].
  - destruct (decodeURIComponent w _) as [objectKey|].
    + apply processS3Object_log.
    + exists []. cbn. rewrite app_nil_r. repeat split; constructor.
  - exists []. cbn. rewrite app_nil_r. repeat split; constructor.
Qed.

Lemma processRecords_log (records : list S3EventRecord) (s : state) :
  exists evs,
    trace (processRecords w records s).2 = trace s ++ evs /\
    quiet evs /\
    match (processRecords w records s).1 with
    | inr _ =>
        clean evs /\
        posts evs = length (List.filter (due w) records) /\
        processingErrors (processRecords w records s).2 = processingErrors s
    | inl _ => True
    end.
Proof.
  revert s. induction records as [|record rest IH]; intros s.
  - exists []. cbn. rewrite app_nil_r. repeat split; constructor.
  - cbn [processRecords]. unfold bind.
    destruct (processRecord_log record s) as (evs1 & Ht1 & Hq1 & Hr1).
    destruct (processRecord w record s) as [[e|[]] s1]; cbn [fst snd] in *.
    + exists evs1. auto.
    + destruct (IH s1) as (evs2 & Ht2 & Hq2 & Hr2).
      exists (evs1 ++ evs2). rewrite Ht2, Ht1, app_assoc.
      split; [reflexivity|]. split; [now apply quiet_app|].
      destruct (processRecords w rest s1) as [[e|[]] s2]; cbn [fst snd] in *; [exact I|].
      destruct Hr1 as (Hc1 & Hp1 & He1). destruct Hr2 as (Hc2 & Hp2 & He2).
      split; [now apply clean_app|]. split.
      * rewrite posts_app, Hp1, Hp2. cbn [List.filter].
        destruct (due w record); reflexivity.
      * congruence.
Qed.

Lemma handleBody_log (m : message) (s : state) :
  exists evs,
    trace (handleBody w m s).2 = trace s ++ evs /\
    quiet evs /\
    match (handleBody w m s).1 with
    | inr _ =>
        clean evs /\
        posts evs = length (List.filter (due w) (records_of m)) /\
        processingErrors (handleBody w m s).2 = processingErrors s
    | inl _ => True
    end.
Proof.
  unfold handleBody, records_of.
  destruct (parsed m) as [body|].
  - destruct (Records body) as [records|]; cbn [default].
    + apply processRecords_log.
    + exists []. cbn. rewrite app_nil_r. repeat split; constructor.
  - exists []. cbn. rewrite app_nil_r. repeat split; constructor.
Qed.

(** [processMessage] in terms of the part before the delete. *)
Lemma processMessage_unfold (m : message) (s : state) :
  processMessage w m s =
    match handleBody w m s with
    | (inr _, s1) =>
        match sqs_delete w (trace s1) (ReceiptHandle m) with
        | inr _ => (inr tt, logged s1 (DeleteMessage (ReceiptHandle m), true))
        | inl _ => (inr tt, failed (logged s1 (DeleteMessage (ReceiptHandle m), false)))
        end
    | (inl _, s1) => (inr tt, failed s1)
    end.
Proof.
  unfold processMessage, try_catch, bind, perform.
  destruct (handleBody w m s) as [[e|[]] s1]; [reflexivity|].
  destruct (sqs_delete w (trace s1) (ReceiptHandle m)) as [e|[]]; reflexivity.
Qed.

(** No exception leaves [processMessage]. *)
Lemma processMessage_returns (m : message) (s : state) :
  (processMessage w m s).1 = inr tt.
Proof.
  rewrite processMessage_unfold.
  destruct (handleBody w m s) as [[e|[]] s1]; [reflexivity|].
  destruct (sqs_delete w _ _); reflexivity.
Qed.

(** The log of [processMessage], by the outcome of the part before the delete. *)
Lemma processMessage_log (m : message) (s : state) :
  exists evs,
    trace (processMessage w m s).2 = trace s ++ evs /\
    match (handleBody w m s).1 with
    | inr _ =>
        exists before ok,
          evs = before ++ [(DeleteMessage (ReceiptHandle m), ok)] /\
          clean before /\
          posts before = length (List.filter (due w) (records_of m))
    | inl _ =>
        quiet evs /\
        processingErrors (processMessage w m s).2 = processingErrors (handleBody w m s).2 + 1
    end.
Proof.
  rewrite processMessage_unfold.
  destruct (handleBody_log m s) as (evs & Htrace & Hquiet & Hres).
  destruct (handleBody w m s) as [[e|[]] s1]; cbn [fst snd] in *.
  - exists evs. cbn. auto.
  - destruct Hres as (Hclean & Hposts & _).
    destruct (sqs_delete w (trace s1) (ReceiptHandle m)) as [e|[]]; cbn [snd].
    + exists (evs ++ [(DeleteMessage (ReceiptHandle m), false)]). cbn.
      rewrite Htrace, <- app_assoc. split; [reflexivity|]. eauto.
    + exists (evs ++ [(DeleteMessage (ReceiptHandle m), true)]). cbn.
      rewrite Htrace, <- app_assoc. split; [reflexivity|]. eauto.
Qed.

Lemma quiet_not_delete (evs : list call) (c : call) :
  quiet evs -> c ∈ evs -> is_delete c = true -> False.
Proof.
  unfold quiet. rewrite Forall_forall. intros Hq Hin Hd.
  specialize (Hq c Hin). congruence.
Qed.

Lemma clean_returned (evs : list call) (c : call) :
  clean evs -> c ∈ evs -> is_delete c = false /\ c.2 = true.
Proof. unfold clean. rewrite Forall_forall. intros Hc Hin. exact (Hc c Hin). Qed.

(** C4.  Of the calls [processMessage] makes for a message, a delete can only
    be the last one, and it is issued only after everything before it
    returned: each earlier call (metadata fetch, download, registration) came
    back without an error, and one registration was made for every
    ObjectCreated record under [cdn/].  When any step throws (parsing and
    decoding included) or any call fails, no delete is issued; the error is
    counted and [processMessage] itself returns. *)
Theorem processMessage_deletes_after_success (m : message) (s : state) :
  (processMessage w m s).1 = inr tt /\
  exists evs,
    trace (processMessage w m s).2 = trace s ++ evs /\
    (forall c, c ∈ evs -> is_delete c = true ->
       exists before,
         evs = before ++ [c] /\
         c.1 = DeleteMessage (ReceiptHandle m) /\
         clean before /\
         posts before = length (List.filter (due w) (records_of m)) /\
         (handleBody w m s).1 = inr tt) /\
    (forall e, (handleBody w m s).1 = inl e ->
       quiet evs /\
       processingErrors (processMessage w m s).2 = processingErrors (handleBody w m s).2 + 1) /\
    (forall c, c ∈ evs -> is_delete c = false -> c.2 = false -> quiet evs).
Proof.
  split; [apply processMessage_returns|].
  destruct (processMessage_log m s) as (evs & Htrace & Hres).
  exists evs. split; [exact Htrace|].
  destruct (handleBody w m s) as [[e|[]] s1]; cbn [fst snd] in *.
  - destruct Hres as [Hquiet Herr]. split; [|split].
    + intros c Hin Hd. destruct (quiet_not_delete evs c Hquiet Hin Hd).
    + intros e' _. auto.
    + intros c _ _ _. exact Hquiet.
  - destruct Hres as (before & ok & -> & Hclean & Hposts). split; [|split].
    + intros c Hin Hd. exists before.
      apply elem_of_app in Hin as [Hin|Hin].
      * destruct (clean_returned before c Hclean Hin) as [Hnd _]. congruence.
      * apply list_elem_of_singleton in Hin as ->. auto.
    + intros e' He'. discriminate He'.
    + intros c Hin Hnd Hfail. exfalso.
      apply elem_of_app in Hin as [Hin|Hin].
      * destruct (clean_returned before c Hclean Hin) as [_ Hret]. congruence.
      * apply list_elem_of_singleton in Hin as ->. cbn in Hnd. discriminate Hnd.
Qed.

(** Every message of a batch is processed, whatever happened to the others. *)
Lemma promise_all_processMessage (ms : list message) (s : state) :
  promise_all (map (processMessage w) ms) s
  = (inr tt, fold_left (fun s' m => (processMessage w m s').2) ms s).
Proof.
  revert s. induction ms as [|m rest IH]; intros s; [reflexivity|].
  cbn [map promise_all fold_left].
  pose proof (processMessage_returns m s) as Hret.
  destruct (processMessage w m s) as [[e|[]] s1]; cbn [fst snd] in *; [discriminate Hret|].
  apply IH.
Qed.

(** No exception leaves a turn of the polling loop. *)
Lemma pollOnce_returns (s : state) : (pollOnce w s).1 = inr tt.
Proof.
  unfold pollOnce, try_catch, bind, perform, count_error.
  destruct (sqs_receive w (trace s)) as [e|[[|m ms]|]]; try reflexivity.
  cbn [succeeded]. now rewrite promise_all_processMessage.
Qed.

Lemma pollSQS_returns (turns : nat) (s : state) : (pollSQS w turns s).1 = inr tt.
Proof.
  revert s. induction turns as [|n IH]; intros s; [reflexivity|].
  cbn [pollSQS]. unfold bind.
  pose proof (pollOnce_returns s) as Hret.
  destruct (pollOnce w s) as [[e|[]] s1]; cbn [fst] in Hret; [discriminate Hret|].
  apply IH.
Qed.

Lemma processRecords_skips (records : list S3EventRecord) (s : state) :
  (forall record, record ∈ records ->
     JS.startsWith "ObjectCreated:" (eventName record) = true ->
     exists objectKey,
       decodeURIComponent w (JS.replace_plus (object_key record)) = Some objectKey /\
       JS.startsWith "cdn/" objectKey = false) ->
  (forall record s', record ∈ records -> processRecord w record s' = (inr tt, s')) /\
  processRecords w records s = (inr tt, s).
Proof.
  intros Hforeign.
  assert (Hone : forall record s', record ∈ records -> processRecord w record s' = (inr tt, s')).
  { intros record s' Hin. unfold processRecord.
    destruct (JS.startsWith "ObjectCreated:" (eventName record)) eqn:Hcreated; [|reflexivity].
    destruct (Hforeign record Hin Hcreated) as (objectKey & -> & Hcdn).
    now apply processS3Object_skips. }
  split; [exact Hone|].
  clear Hforeign. induction records as [|record rest IH]; [reflexivity|].
  cbn [processRecords]. unfold bind. rewrite Hone by left.
  apply IH. intros r s' Hin. apply Hone. now right.
Qed.

(** A message whose ObjectCreated records all have decoded keys outside
    [cdn/]: the delete is the only call. *)
Lemma processMessage_foreign_only (m : message) (s : state) :
  parsed m <> None ->
  (forall record, record ∈ records_of m ->
     JS.startsWith "ObjectCreated:" (eventName record) = true ->
     exists objectKey,
       decodeURIComponent w (JS.replace_plus (object_key record)) = Some objectKey /\
       JS.startsWith "cdn/" objectKey = false) ->
  trace (processMessage w m s).2 =
    trace s ++ [(DeleteMessage (ReceiptHandle m),
                 succeeded (sqs_delete w (trace s) (ReceiptHandle m)))] /\
  processedEvents (processMessage w m s).2 = processedEvents s.
Proof.
  intros Hparsed Hforeign.
  destruct (processRecords_skips (records_of m) s Hforeign) as [Hone Hall].
  assert (Hbody : handleBody w m s = (inr tt, s)).
  { unfold handleBody. unfold records_of in Hall.
    destruct (parsed m) as [body|]; [|contradiction].
    destruct (Records body) as [records|]; [exact Hall|reflexivity]. }
  rewrite processMessage_unfold, Hbody.
  destruct (sqs_delete w (trace s) (ReceiptHandle m)) as [e|[]]; cbn; auto.
Qed.

(** A record that [processRecord] passes over can be taken out of the list. *)
Lemma processRecords_without (record : S3EventRecord) (pre post : list S3EventRecord)
    (s : state) :
  (forall s', processRecord w record s' = (inr tt, s')) ->
  processRecords w (pre ++ record :: post) s = processRecords w (pre ++ post) s.
Proof.
  intros Hskip. revert s. induction pre as [|r pre IH]; intros s.
  - cbn [app processRecords]. unfold bind. now rewrite Hskip.
  - cbn [app processRecords]. unfold bind.
    destruct (processRecord w r s) as [[e|[]] s1]; [reflexivity|]. apply IH.
Qed.

(** C8.  Take an ObjectCreated record whose decoded key does not begin with
    [cdn/].  Processing its object makes no call and changes nothing: no
    metadata fetch, no download, no registration, no exception.  The record
    makes no difference to the handling of the other records of its message.
    And a message all of whose ObjectCreated records are of this kind, the
    message with this single record among them, is acknowledged: the delete
    of the message is the only call [processMessage] makes. *)
Theorem processMessage_acknowledges_foreign_keys (record : S3EventRecord) (objectKey : string) :
  JS.startsWith "ObjectCreated:" (eventName record) = true ->
  decodeURIComponent w (JS.replace_plus (object_key record)) = Some objectKey ->
  JS.startsWith "cdn/" objectKey = false ->
  (forall s, processS3Object w (bucket_name record) objectKey s = (inr tt, s)) /\
  (forall pre post s,
      processRecords w (pre ++ record :: post) s = processRecords w (pre ++ post) s) /\
  (forall handle s,
      let m := {| parsed := Some {| Records := Some [record] |}; ReceiptHandle := handle |} in
      trace (processMessage w m s).2 =
        trace s ++ [(DeleteMessage handle, succeeded (sqs_delete w (trace s) handle))] /\
      processedEvents (processMessage w m s).2 = processedEvents s /\
      (processMessage w m s).1 = inr tt) /\
  (forall m s,
      parsed m <> None ->
      (forall r, r ∈ records_of m ->
         JS.startsWith "ObjectCreated:" (eventName r) = true ->
         exists k,
           decodeURIComponent w (JS.replace_plus (object_key r)) = Some k /\
           JS.startsWith "cdn/" k = false) ->
      trace (processMessage w m s).2 =
        trace s ++ [(DeleteMessage (ReceiptHandle m),
                     succeeded (sqs_delete w (trace s) (ReceiptHandle m)))] /\
      processedEvents (processMessage w m s).2 = processedEvents s).
Proof.
  intros Hcreated Hdecode Hcdn.
  assert (Hobject : forall s, processS3Object w (bucket_name record) objectKey s = (inr tt, s)).
  { intros s. now apply processS3Object_skips. }
  assert (Hrecord : forall s, processRecord w record s = (inr tt, s)).
  { intros s. unfold processRecord. now rewrite Hcreated, Hdecode. }
  split; [exact Hobject|]. split; [|split].
  - intros pre post s. now apply processRecords_without.
  - intros handle s m.
    destruct (processMessage_foreign_only m s) as [Htrace Hcount].
    + discriminate.
    + intros r Hin _. apply list_elem_of_singleton in Hin as ->. now exists objectKey.
    + split; [exact Htrace|]. split; [exact Hcount|]. apply processMessage_returns.
  - intros m s. apply processMessage_foreign_only.
Qed.




End HandlerFacts.

Section HandlerExamples.
Import EventHandler HandlerSpec HandlerFixtures.

(** A created object under [cdn/]: fetch, download, registration, delete. *)
Example processMessage_registers_then_deletes :
  processMessage (handler_world true) (message_of [created "cdn/file-1"] "receipt-1") start
  = (inr tt,
     {| processedEvents := 1;
        processingErrors := 0;
        trace := [ (HeadObject "bucket-2" "cdn/file-1", true);
                   (GetObject "bucket-2" "cdn/file-1", true);
                   (ReadBody "bucket-2" "cdn/file-1", true);
                   (PostAdvertise registration, true);
                   (DeleteMessage "receipt-1", true) ] |}).
Proof. vm_compute. reflexivity. Qed.

(** The registration fails: two errors counted, no delete. *)
Example processMessage_keeps_message_on_failure :
  processMessage (handler_world false) (message_of [created "cdn/file-1"] "receipt-1") start
  = (inr tt,
     {| processedEvents := 0;
        processingErrors := 2;
        trace := [ (HeadObject "bucket-2" "cdn/file-1", true);
                   (GetObject "bucket-2" "cdn/file-1", true);
                   (ReadBody "bucket-2" "cdn/file-1", true);
                   (PostAdvertise registration, false) ] |}).
Proof. vm_compute. reflexivity. Qed.

(** The scenario of the specification: the key [other/foo]. *)
Example processMessage_other_foo :
  processMessage (handler_world true) (message_of [created "other/foo"] "receipt-1") start
  = (inr tt,
     {| processedEvents := 0;
        processingErrors := 0;
        trace := [ (DeleteMessage "receipt-1", true) ] |}).
Proof. vm_compute. reflexivity. Qed.

(** A message with a key outside [cdn/] and one inside: only the second is
    fetched and registered. *)
Example processMessage_mixed_keys :
  processMessage (handler_world true)
    (message_of [created "other/foo"; created "cdn/file-1"] "receipt-1") start
  = (inr tt,
     {| processedEvents := 1;
        processingErrors := 0;
        trace := [ (HeadObject "bucket-2" "cdn/file-1", true);
                   (GetObject "bucket-2" "cdn/file-1", true);
                   (ReadBody "bucket-2" "cdn/file-1", true);
                   (PostAdvertise registration, true);
                   (DeleteMessage "receipt-1", true) ] |}).
Proof. vm_compute. reflexivity. Qed.

(** An object without the owner's key, then a good message in the same batch. *)
Example batch_goes_on_after_orphan :
  promise_all
    (map (processMessage (handler_world true))
       [ message_of [created "cdn/orphan"] "receipt-1";
         message_of [created "cdn/file-1"] "receipt-2" ]) start
  = (inr tt,
     {| processedEvents := 1;
        processingErrors := 2;
        trace := [ (HeadObject "bucket-2" "cdn/orphan", true);
                   (HeadObject "bucket-2" "cdn/file-1", true);
                   (GetObject "bucket-2" "cdn/file-1", true);
                   (ReadBody "bucket-2" "cdn/file-1", true);
                   (PostAdvertise registration, true);
                   (DeleteMessage "receipt-2", true) ] |}).
Proof. vm_compute. reflexivity. Qed.

(** C8, witness: the theorem at the record of the key [other/foo]. *)
Lemma processMessage_acknowledges_foreign_keys_witness :
  let w := handler_world true in
  let record := created "other/foo" in
  (forall s, processS3Object w (bucket_name record) "other/foo" s = (inr tt, s)) /\
  (forall pre post s,
      processRecords w (pre ++ record :: post) s = processRecords w (pre ++ post) s) /\
  (forall handle s,
      let m := {| parsed := Some {| Records := Some [record] |}; ReceiptHandle := handle |} in
      trace (processMessage w m s).2 =
        trace s ++ [(DeleteMessage handle, succeeded (sqs_delete w (trace s) handle))] /\
      processedEvents (processMessage w m s).2 = processedEvents s /\
      (processMessage w m s).1 = inr tt) /\
  (forall m s,
      parsed m <> None ->
      (forall r, r ∈ records_of m ->
         JS.startsWith "ObjectCreated:" (eventName r) = true ->
         exists k,
           decodeURIComponent w (JS.replace_plus (object_key r)) = Some k /\
           JS.startsWith "cdn/" k = false) ->
      trace (processMessage w m s).2 =
        trace s ++ [(DeleteMessage (ReceiptHandle m),
                     succeeded (sqs_delete w (trace s) (ReceiptHandle m)))] /\
      processedEvents (processMessage w m s).2 = processedEvents s).
Proof.
  apply (processMessage_acknowledges_foreign_keys (handler_world true)
           (created "other/foo") "other/foo"); reflexivity.
Defined.


End HandlerExamples.

(** * Further properties *)

(** ** The resolver: expiry and store order *)

Section ResolverMore.
Import Resolver ResolverSpec ResolverOrder.
Variable w : world.

(** No tagged output has a greater expiry than the first of greatest expiry,
    which is one of the outputs. *)
Lemma greatest_first_bound (outputs : list WalletOutput) (e : Z) (t : string) :
  greatest_first outputs e t ->
  (exists out, out ∈ outputs /\ reading out = Some (e, t)) /\
  (forall o e' t', o ∈ outputs -> reading o = Some (e', t') -> e' <= e).
Proof.
  intros (pre & out & post & -> & Hr & Hpre & Hpost). split.
  - exists out. split; [|exact Hr]. apply elem_of_app. right. left.
  - intros o e' t' Ho Hro. apply elem_of_app in Ho as [Ho|Ho].
    + specialize (Hpre _ _ _ Ho Hro). lia.
    + apply elem_of_cons in Ho as [->|Ho].
      * rewrite Hr in Hro. injection Hro as <- <-. lia.
      * exact (Hpost _ _ _ Ho Hro).
Qed.

(** [getMetadata] once an output has been selected. *)
Lemma getMetadata_selected (uhrpUrl uploaderIdentityKey : string) (limit offset : option Z)
    (outputs : list WalletOutput) (e : Z) (t : string) :
  listOutputs w (listOutputsArgs w uhrpUrl uploaderIdentityKey limit offset) = inr outputs ->
  greatest_first outputs e t -> 0 < e ->
  getMetadata w uhrpUrl uploaderIdentityKey limit offset =
    let objectIdentifier := hexToUTF8 w (JS.substring 18 t) in
    if negb (JS.truthy objectIdentifier)
    then inl (NoAdvertisementFound uhrpUrl uploaderIdentityKey)
    else if now w >? e * 1000 then inl (AdvertisementExpired uhrpUrl)
    else match getObjectMetadata w ("cdn/" +:+ objectIdentifier) with
         | inl message => inl (Propagated message)
         | inr metadata => inr (composed objectIdentifier e metadata)
         end.
Proof.
  intros Hq Hgf Hpos. unfold getMetadata. rewrite Hq. cbv zeta.
  rewrite (scan_greatest_first w outputs e t Hgf).
  apply Z.ltb_lt in Hpos. rewrite Hpos. reflexivity.
Qed.

(** X1.  When an output with a greater-than-zero expiry [e] (seconds) and a
    non-empty identifier is selected, [getMetadata] fails with
    AdvertisementExpired exactly when the clock (milliseconds) is past
    [e * 1000]; at [e * 1000] itself and before, it asks the adapter for
    [cdn/] followed by the identifier and returns the composed record, or lets
    the adapter's error through unchanged. *)
Theorem getMetadata_expiry_boundary (uhrpUrl uploaderIdentityKey : string)
    (limit offset : option Z) (outputs : list WalletOutput) (e : Z) (t : string) :
  listOutputs w (listOutputsArgs w uhrpUrl uploaderIdentityKey limit offset) = inr outputs ->
  greatest_first outputs e t -> 0 < e ->
  hexToUTF8 w (JS.substring 18 t) <> "" ->
  (getMetadata w uhrpUrl uploaderIdentityKey limit offset = inl (AdvertisementExpired uhrpUrl)
   <-> e * 1000 < now w) /\
  (now w <= e * 1000 ->
   getMetadata w uhrpUrl uploaderIdentityKey limit offset =
     match getObjectMetadata w ("cdn/" +:+ hexToUTF8 w (JS.substring 18 t)) with
     | inl message => inl (Propagated message)
     | inr metadata => inr (composed (hexToUTF8 w (JS.substring 18 t)) e metadata)
     end).
Proof.
  intros Hq Hgf Hpos Hid.
  rewrite (getMetadata_selected _ _ _ _ outputs e t Hq Hgf Hpos). cbv zeta.
  destruct (hexToUTF8 w (JS.substring 18 t)) as [|c rest] eqn:Hdec; [contradiction|].
  cbn [JS.truthy negb].
  rewrite Z.gtb_ltb. destruct (Z.ltb_spec (e * 1000) (now w)) as [Hlt|Hge].
  - split; [tauto|lia].
  - split; [|reflexivity]. split; [|lia].
    destruct (getObjectMetadata w _); discriminate.
Qed.

(** X2.  When some output with both tags is still valid (its expiry is
    greater than 0 and not before the clock), [getMetadata] does not fail with
    AdvertisementExpired, whatever else the wallet returned. *)
Theorem getMetadata_valid_candidate_not_expired (uhrpUrl uploaderIdentityKey : string)
    (limit offset : option Z) (outputs : list WalletOutput) (out : WalletOutput)
    (e : Z) (t : string) :
  listOutputs w (listOutputsArgs w uhrpUrl uploaderIdentityKey limit offset) = inr outputs ->
  out ∈ outputs -> reading out = Some (e, t) -> 0 < e -> now w <= e * 1000 ->
  ~ exists url, getMetadata w uhrpUrl uploaderIdentityKey limit offset
                = inl (AdvertisementExpired url).
Proof.
  intros Hq Hin Hr Hpos Hnow (url & Hexpired). revert Hexpired.
  destruct (greatest_first_exists outputs) as [Hnone|(e0 & t0 & Hgf)].
  - rewrite (Hnone out Hin) in Hr. discriminate.
  - destruct (greatest_first_bound outputs e0 t0 Hgf) as [_ Hmax].
    pose proof (Hmax out e t Hin Hr) as Hle.
    rewrite (getMetadata_selected _ _ _ _ outputs e0 t0 Hq Hgf) by lia. cbv zeta.
    destruct (negb _); [discriminate|].
    replace (now w >? e0 * 1000) with false by (symmetry; apply gtb_le; lia).
    destruct (getObjectMetadata w _); discriminate.
Qed.

(** The expiry of the first output of greatest expiry does not depend on the
    order of the outputs. *)
Lemma greatest_first_permutation (outputs outputs' : list WalletOutput)
    (e e' : Z) (t t' : string) :
  outputs ≡ₚ outputs' ->
  greatest_first outputs e t -> greatest_first outputs' e' t' ->
  e = e' /\ (no_ties outputs -> t = t').
Proof.
  intros Hperm Hgf Hgf'.
  destruct (greatest_first_bound _ _ _ Hgf) as [(o & Ho & Hro) Hmax].
  destruct (greatest_first_bound _ _ _ Hgf') as [(o' & Ho' & Hro') Hmax'].
  assert (Ho1 : o ∈ outputs') by now rewrite <- Hperm.
  assert (Ho2 : o' ∈ outputs) by now rewrite Hperm.
  pose proof (Hmax o' e' t' Ho2 Hro').
  pose proof (Hmax' o e t Ho1 Hro).
  assert (e = e') as <- by lia.
  split; [reflexivity|]. intros Hties. exact (Hties o o' e t t' Ho Ho2 Hro Hro').
Qed.

(** X3.  The greatest expiry the loop of [getMetadata] ends with does not
    depend on the order in which the wallet returns the outputs; and when no
    two tagged outputs of equal expiry carry different identifier tags, neither
    does the selected identifier: the loop ends in the same state for every
    order. *)
Theorem scan_order_independent (outputs outputs' : list WalletOutput) :
  outputs ≡ₚ outputs' ->
  maxpiry (scan w outputs) = maxpiry (scan w outputs') /\
  (no_ties outputs -> scan w outputs = scan w outputs').
Proof.
  intros Hperm.
  destruct (greatest_first_exists outputs) as [Hnone|(e & t & Hgf)].
  - assert (Hnone' : forall out, out ∈ outputs' -> reading out = None).
    { intros out Hin. apply Hnone. now rewrite Hperm. }
    rewrite (scan_untagged w outputs Hnone), (scan_untagged w outputs' Hnone'). auto.
  - destruct (greatest_first_exists outputs') as [Hnone'|(e' & t' & Hgf')].
    + destruct (greatest_first_bound _ _ _ Hgf) as [(o & Ho & Hro) _].
      rewrite Hperm in Ho. rewrite (Hnone' o Ho) in Hro. discriminate.
    + destruct (greatest_first_permutation _ _ _ _ _ _ Hperm Hgf Hgf') as [<- Ht].
      rewrite (scan_greatest_first w outputs e t Hgf),
              (scan_greatest_first w outputs' e t' Hgf').
      split.
      * destruct (0 <? e); reflexivity.
      * intros Hties. now rewrite (Ht Hties).
Qed.

End ResolverMore.

Section ResolverMoreExamples.
Import Resolver ResolverSpec ResolverOrder.

(** Two advertisements that tie on the expiry with different identifiers: the
    store order decides. *)
Example scan_tie_depends_on_order :
  found (scan (Fixtures.resolver_world [] 0)
           [Fixtures.advertisement "a" "2000"; Fixtures.advertisement "b" "2000"]) = Some "a" /\
  found (scan (Fixtures.resolver_world [] 0)
           [Fixtures.advertisement "b" "2000"; Fixtures.advertisement "a" "2000"]) = Some "b".
Proof. split; reflexivity. Qed.

Lemma greatest_first_single (objectIdentifier expiry : string) (e : Z) (t : string) :
  reading (Fixtures.advertisement objectIdentifier expiry) = Some (e, t) ->
  greatest_first [Fixtures.advertisement objectIdentifier expiry] e t.
Proof.
  intros Hr. exists [], (Fixtures.advertisement objectIdentifier expiry), [].
  split; [reflexivity|]. split; [exact Hr|].
  split; intros o e' t' Ho; now apply elem_of_nil in Ho.
Qed.

(** X1, witness: the clock reads exactly the expiry, 1700003600000 ms. *)
Lemma getMetadata_expiry_boundary_witness :
  let outputs := [Fixtures.advertisement "file-1" "1700003600"] in
  let w := Fixtures.resolver_world outputs 1700003600000 in
  (getMetadata w "uhrp" "02ab" None None = inl (AdvertisementExpired "uhrp")
   <-> 1700003600 * 1000 < now w) /\
  (now w <= 1700003600 * 1000 ->
   getMetadata w "uhrp" "02ab" None None =
     match getObjectMetadata w
             ("cdn/" +:+ hexToUTF8 w (JS.substring 18 "object_identifier_66696c652d31")) with
     | inl message => inl (Propagated message)
     | inr metadata =>
         inr (composed (hexToUTF8 w (JS.substring 18 "object_identifier_66696c652d31"))
                1700003600 metadata)
     end).
Proof.
  apply (getMetadata_expiry_boundary
           (Fixtures.resolver_world [Fixtures.advertisement "file-1" "1700003600"] 1700003600000)
           "uhrp" "02ab" None None [Fixtures.advertisement "file-1" "1700003600"]
           1700003600 "object_identifier_66696c652d31").
  - reflexivity.
  - apply greatest_first_single. reflexivity.
  - lia.
  - discriminate.
Defined.

(** X2, witness: an expired advertisement listed before a valid one. *)
Lemma getMetadata_valid_candidate_not_expired_witness :
  let outputs := [Fixtures.advertisement "old" "1600000000";
                  Fixtures.advertisement "file-1" "1700003600"] in
  let w := Fixtures.resolver_world outputs 1700000000000 in
  ~ exists url, getMetadata w "uhrp" "02ab" None None = inl (AdvertisementExpired url).
Proof.
  apply (getMetadata_valid_candidate_not_expired
           (Fixtures.resolver_world
              [Fixtures.advertisement "old" "1600000000";
               Fixtures.advertisement "file-1" "1700003600"] 1700000000000)
           "uhrp" "02ab" None None
           [Fixtures.advertisement "old" "1600000000";
            Fixtures.advertisement "file-1" "1700003600"]
           (Fixtures.advertisement "file-1" "1700003600")
           1700003600 "object_identifier_66696c652d31").
  - reflexivity.
  - right. left.
  - reflexivity.
  - lia.
  - cbn. lia.
Defined.

(** X3, witness: two advertisements of different expiries, in both orders. *)
Lemma scan_order_independent_witness :
  let w := Fixtures.resolver_world [] 0 in
  let a := Fixtures.advertisement "a" "1000" in
  let b := Fixtures.advertisement "b" "2000" in
  maxpiry (scan w [a; b]) = maxpiry (scan w [b; a]) /\
  (no_ties [a; b] -> scan w [a; b] = scan w [b; a]).
Proof.
  apply (scan_order_independent (Fixtures.resolver_world [] 0)
           [Fixtures.advertisement "a" "1000"; Fixtures.advertisement "b" "2000"]
           [Fixtures.advertisement "b" "2000"; Fixtures.advertisement "a" "1000"]).
  apply perm_swap.
Defined.

End ResolverMoreExamples.

(** ** The providers: constructors and the factory *)

Section ConstructorFacts.
Import ProviderMore.

Lemma or_else_truthy (a : option string) (b : string) :
  JS.truthy (JS.or_else a b) = JS.truthy_opt a || JS.truthy b.
Proof.
  unfold JS.or_else, JS.truthy_opt. destruct a as [s|]; [|reflexivity].
  destruct (JS.truthy s) eqn:Hs; [exact Hs|reflexivity].
Qed.

Lemma truthy_nonempty (s : string) : JS.truthy s = true <-> s <> "".
Proof. destruct s; cbn; split; congruence. Qed.


Lemma or_opt_truthy (a b : option string) :
  JS.truthy_opt (JS.or_opt a b) = JS.truthy_opt a || JS.truthy_opt b.
Proof. unfold JS.or_opt. destruct (JS.truthy_opt a) eqn:Ha; [exact Ha|reflexivity]. Qed.

Lemma S3_new_bucket (env : gmap string string) (self : S3.instance) :
  S3.new env = inr self -> S3.bucketName self <> "" /\ S3.region self <> "".
Proof.
  unfold S3.new.
  destruct (JS.truthy (JS.or_else _ "")) eqn:Hb; cbn [negb]; [|discriminate].
  intros [= <-]. cbn. split; [now apply truthy_nonempty|].
  apply truthy_nonempty. rewrite or_else_truthy. apply orb_true_r.
Qed.

Lemma GCS_new_bucket (env : gmap string string) (self : GCS.instance) :
  GCS.new env = inr self -> GCS.bucketName self <> "" /\ GCS.projectId self <> "".
Proof.
  unfold GCS.new.
  destruct (JS.truthy (JS.or_else _ "")) eqn:Hb; cbn [negb orb]; [|discriminate].
  destruct (env !! "GCP_PROJECT_ID") as [project|] eqn:Hp; cbn; [|discriminate].
  destruct (JS.truthy project) eqn:Ht; cbn; [|discriminate].
  intros [= <-]. cbn. split; now apply truthy_nonempty.
Qed.

(** X4.  A provider object always has a bucket: the S3 constructor succeeds
    exactly when STORAGE_BUCKET_NAME or AWS_BUCKET_NAME is set and not empty,
    the GCS constructor exactly when STORAGE_BUCKET_NAME or GCP_BUCKET_NAME
    and also GCP_PROJECT_ID are; a non-empty STORAGE_BUCKET_NAME wins over the
    provider's own variable; and every provider [getStorageProvider] returns
    has a non-empty bucket name. *)
Theorem constructed_providers_have_a_bucket (env : gmap string string) :
  ((exists self, S3.new env = inr self) <->
   JS.truthy_opt (env !! "STORAGE_BUCKET_NAME") || JS.truthy_opt (env !! "AWS_BUCKET_NAME")
   = true) /\
  ((exists self, GCS.new env = inr self) <->
   (JS.truthy_opt (env !! "STORAGE_BUCKET_NAME") || JS.truthy_opt (env !! "GCP_BUCKET_NAME"))
   && JS.truthy_opt (env !! "GCP_PROJECT_ID") = true) /\
  (forall b, env !! "STORAGE_BUCKET_NAME" = Some b -> b <> "" ->
     (forall self, S3.new env = inr self -> S3.bucketName self = b) /\
     (forall self, GCS.new env = inr self -> GCS.bucketName self = b)) /\
  (forall st p st', Storage.getStorageProvider env st = (inr p, st') ->
     reachable st -> bucket_of p <> "").
Proof.
  split; [|split; [|split]].
  - unfold S3.new. rewrite or_else_truthy, or_opt_truthy, orb_false_r.
    destruct (_ || _); cbn [negb]; split; eauto; try discriminate.
    intros (self & H). discriminate H.
  - unfold GCS.new. rewrite or_else_truthy, or_opt_truthy, orb_false_r.
    destruct (JS.truthy_opt (env !! "STORAGE_BUCKET_NAME")
              || JS.truthy_opt (env !! "GCP_BUCKET_NAME"));
      destruct (JS.truthy_opt (env !! "GCP_PROJECT_ID"));
      cbn [negb orb andb]; split; intros H;
      try (destruct H as (self & H)); try discriminate H; eauto.
  - intros b Hb Hne. split.
    + intros self. unfold S3.new.
      destruct (negb _); [discriminate|]. intros [= <-]. cbn.
      unfold JS.or_opt. rewrite Hb. cbn [JS.truthy_opt].
      destruct b; [contradiction|reflexivity].
    + intros self. unfold GCS.new.
      destruct (_ || _); [discriminate|]. intros [= <-]. cbn.
      unfold JS.or_opt. rewrite Hb. cbn [JS.truthy_opt].
      destruct b; [contradiction|reflexivity].
  - intros st p st' Hget Hreach.
    assert (Hinv : forall st0, reachable st0 ->
               forall q, Storage.storageProvider st0 = Some q -> bucket_of q <> "").
    { clear. intros st0 Hr. induction Hr as [|env st Hr IH|st Hr IH]; intros q Hq.
      - discriminate Hq.
      - revert Hq. unfold Storage.getStorageProvider.
        destruct (Storage.storageProvider st) as [q0|] eqn:Hst.
        + cbn. rewrite Hst. intros [= <-]. now apply IH.
        + destruct (String.eqb _ "gcs").
          * destruct (GCS.new env) as [e|self] eqn:Hnew; cbn.
            -- rewrite Hst. discriminate.
            -- intros [= <-]. cbn. now apply GCS_new_bucket in Hnew.
          * destruct (String.eqb _ "aws"); [|cbn; rewrite Hst; discriminate].
            destruct (S3.new env) as [e|self] eqn:Hnew; cbn.
            -- rewrite Hst. discriminate.
            -- intros [= <-]. cbn. now apply S3_new_bucket in Hnew.
      - discriminate Hq. }
    apply (Hinv st' ).
    + replace st' with (Storage.getStorageProvider env st).2 by now rewrite Hget.
      now constructor.
    + unfold Storage.getStorageProvider in Hget.
      destruct (Storage.storageProvider st) as [q0|] eqn:Hst.
      * injection Hget as <- <-. exact Hst.
      * destruct (String.eqb _ "gcs").
        -- destruct (GCS.new env); [discriminate|]. unfold Storage.install in Hget.
           now injection Hget as <- <-.
        -- destruct (String.eqb _ "aws"); [|discriminate].
           destruct (S3.new env); [discriminate|]. unfold Storage.install in Hget.
           now injection Hget as <- <-.
Qed.

End ConstructorFacts.

(** ** The S3 provider: existence and metadata *)

Section S3OpsFacts.
Import ProviderMore.

(** X5.  [objectExists] of the S3 provider answers [true] exactly when the
    metadata of the object can be fetched, answers [false] exactly when the
    fetch fails with an error named NotFound or with HTTP status 404, and
    throws every other error of the fetch unchanged (a 403, a time-out): a
    failure to reach the object is never reported as absence. *)
Theorem S3_objectExists_taxonomy (w : S3Ops.world) (self : S3.instance) (objectKey : string) :
  (S3Ops.objectExists w self objectKey = inr true <->
   exists response, S3Ops.send_head w (S3.bucketName self) objectKey = inr response) /\
  (S3Ops.objectExists w self objectKey = inr false <->
   exists e, S3Ops.send_head w (S3.bucketName self) objectKey = inl e /\
             (S3Ops.err_name e = "NotFound" \/ S3Ops.httpStatusCode e = Some 404)) /\
  (forall e, S3Ops.objectExists w self objectKey = inl e <->
     S3Ops.send_head w (S3.bucketName self) objectKey = inl e /\
     S3Ops.err_name e <> "NotFound" /\ S3Ops.httpStatusCode e <> Some 404).
Proof.
  assert (Hnf : forall e, S3Ops.is_not_found e = true <->
                  S3Ops.err_name e = "NotFound" \/ S3Ops.httpStatusCode e = Some 404).
  { intros e. unfold S3Ops.is_not_found. rewrite orb_true_iff.
    rewrite String.eqb_eq. destruct (S3Ops.httpStatusCode e) as [status|].
    - rewrite Z.eqb_eq. split; (intros [H|H]; [now left|right]); congruence.
    - split; (intros [H|H]; [now left|discriminate H]). }
  unfold S3Ops.objectExists, S3Ops.getObjectMetadata.
  destruct (S3Ops.send_head w (S3.bucketName self) objectKey) as [e|response].
  - destruct (S3Ops.is_not_found e) eqn:Hnot.
    + apply Hnf in Hnot. split; [|split].
      * split; [discriminate|]. intros (r & H). discriminate H.
      * split; [eauto|reflexivity].
      * intros e'. split; [discriminate|]. intros ([= <-] & Hname & Hstatus). tauto.
    + assert (Hneither : ~ (S3Ops.err_name e = "NotFound" \/ S3Ops.httpStatusCode e = Some 404)).
      { intros H. apply Hnf in H. congruence. }
      split; [|split].
      * split; [discriminate|]. intros (r & H). discriminate H.
      * split; [discriminate|]. intros (e' & [= <-] & H). tauto.
      * intros e'. split.
        -- intros [= <-]. tauto.
        -- intros ([= <-] & _). reflexivity.
  - split; [|split].
    + split; eauto.
    + split; [discriminate|]. intros (e & H & _). discriminate H.
    + intros e. split; [discriminate|]. intros (H & _). discriminate H.
Qed.



End S3OpsFacts.

Example S3_objectExists_present :
  S3Ops.objectExists OpsFixtures.s3_ops_world ProviderFixtures.s3_self "cdn/file-1" = inr true.
Proof. reflexivity. Qed.

Example S3_objectExists_absent :
  S3Ops.objectExists OpsFixtures.s3_ops_world ProviderFixtures.s3_self "cdn/none" = inr false.
Proof. reflexivity. Qed.

Example S3_objectExists_forbidden :
  S3Ops.objectExists OpsFixtures.s3_ops_world ProviderFixtures.s3_self "cdn/secret"
  = inl OpsFixtures.access_denied.
Proof. reflexivity. Qed.

Example S3_getObjectMetadata_default_type :
  S3Ops.getObjectMetadata OpsFixtures.s3_ops_world ProviderFixtures.s3_self "cdn/file-1"
  = inr {| StorageTypes.om_size := 1024;
           StorageTypes.om_contentType := "application/octet-stream";
           StorageTypes.om_lastModified := 1690000000000;
           StorageTypes.om_customMetadata := {[ "uploaderidentitykey" := "02ab" ]} |}.
Proof. reflexivity. Qed.

Example S3_downloadObject_concatenates :
  S3Ops.downloadObject OpsFixtures.s3_ops_world ProviderFixtures.s3_self "cdn/file-1"
  = inr "bytes".
Proof. reflexivity. Qed.

(** ** The GCS provider: listing and metadata update *)

Section GCSOpsFacts.
Import ProviderMore.

(** X7.  A listing of the GCS provider has one entry per file the client
    returned, in the same order and under the file's name.  It is marked
    truncated exactly when it carries a non-empty continuation token; and
    asking for the page after a truncated listing hands that very token to
    the client as [pageToken], while the first request (no token, or an empty
    one) sets no [pageToken] at all. *)
Theorem GCS_listObjects_paging (w : GCSOps.world) (self : GCS.instance)
    (params : Listing.ListObjectsParams) (r : Listing.ListObjectsResponse) :
  GCSOps.listObjects w self params = inr r ->
  (exists files nextQuery,
     GCSOps.getFiles w (GCS.bucketName self) (GCSOps.getFilesOptions params)
       = inr (files, nextQuery) /\
     map Listing.key (Listing.objects r) = map GCSOps.file_name files) /\
  (Listing.isTruncated r = true <->
   exists token, Listing.nextToken r = Some token /\ token <> "") /\
  (Listing.isTruncated r = true ->
   GCSOps.pageToken (GCSOps.getFilesOptions (next_page params r)) = Listing.nextToken r) /\
  (JS.truthy_opt (Listing.continuationToken params) = false ->
   GCSOps.pageToken (GCSOps.getFilesOptions params) = None).
Proof.
  unfold GCSOps.listObjects.
  destruct (GCSOps.getFiles w _ _) as [e|[files nextQuery]] eqn:Hfiles; [discriminate|].
  intros [= <-]. cbn [Listing.objects Listing.nextToken Listing.isTruncated].
  split; [|split; [|split]].
  - exists files, nextQuery. split; [reflexivity|].
    rewrite map_map. reflexivity.
  - unfold JS.truthy_opt. destruct (nextQuery ≫= id) as [token|].
    + rewrite truthy_nonempty. split; [eauto|]. now intros (t & [= <-] & Ht).
    + split; [discriminate|]. intros (t & H & _). discriminate H.
  - intros Htrunc. unfold GCSOps.getFilesOptions, next_page.
    cbn [Listing.continuationToken Listing.nextToken GCSOps.pageToken]. now rewrite Htrunc.
  - intros Hfalsy. unfold GCSOps.getFilesOptions. cbn [GCSOps.pageToken]. now rewrite Hfalsy.
Qed.






End GCSOpsFacts.

Example GCS_listObjects_first_page :
  GCSOps.listObjects OpsFixtures.gcs_ops_world ProviderFixtures.gcs_self OpsFixtures.first_page
  = inr {| Listing.objects :=
             [ {| Listing.key := "cdn/a"; Listing.size := Some 1;
                  Listing.lastModified := None |} ];
           Listing.nextToken := Some "page-2";
           Listing.isTruncated := true |}.
Proof. reflexivity. Qed.

Example GCS_gcsMetadata_keeps_case :
  GCSOps.gcsMetadata [ ("customTime", ""); ("Owner", "me") ] = {[ "Owner" := "me" ]} /\
  S3.newMetadata None [ ("customTime", ""); ("Owner", "me") ] = {[ "owner" := "me" ]}.
Proof. split; vm_compute; reflexivity. Qed.

(** X7, witness: the first page of a two-page listing. *)
Lemma GCS_listObjects_paging_witness :
  let w := OpsFixtures.gcs_ops_world in
  let self := ProviderFixtures.gcs_self in
  let params := OpsFixtures.first_page in
  let r := {| Listing.objects :=
                [ {| Listing.key := "cdn/a"; Listing.size := Some 1;
                     Listing.lastModified := None |} ];
              Listing.nextToken := Some "page-2";
              Listing.isTruncated := true |} in
  (exists files nextQuery,
     GCSOps.getFiles w (GCS.bucketName self) (GCSOps.getFilesOptions params)
       = inr (files, nextQuery) /\
     map Listing.key (Listing.objects r) = map GCSOps.file_name files) /\
  (Listing.isTruncated r = true <->
   exists token, Listing.nextToken r = Some token /\ token <> "") /\
  (Listing.isTruncated r = true ->
   GCSOps.pageToken (GCSOps.getFilesOptions (ProviderMore.next_page params r))
   = Listing.nextToken r) /\
  (JS.truthy_opt (Listing.continuationToken params) = false ->
   GCSOps.pageToken (GCSOps.getFilesOptions params) = None).
Proof.
  exact (GCS_listObjects_paging OpsFixtures.gcs_ops_world ProviderFixtures.gcs_self
           OpsFixtures.first_page _ eq_refl).
Defined.


(** ** Upload grants: what is bound, and when none is issued *)

Section GrantFacts.
Import StorageTypes.

(** X9.  Every grant is bound to one object, one size and one owner.  The
    GCS provider has the signer sign a v4 write for the file [cdn/] followed by
    the object identifier in its bucket, with the headers it then requires of
    the client: the decimal size as [content-length] and the uploader's key as
    [x-goog-meta-uploaderidentitykey]; it returns no form fields.  The S3
    provider has the policy signed for the same key in its bucket, with a
    [content-length-range] from the size to the size and the uploader's key as
    a form field; it returns the signer's fields and asks for a multipart
    form. *)
Theorem generateUploadURL_binds (gw : GCS.world) (gself : GCS.instance)
    (sw : S3.world) (sself : S3.instance) (p : UploadParams) :
  (forall r, GCS.generateUploadURL gw gself p = inr r ->
     exists config,
       GCS.getSignedUrl gw (GCS.bucketName gself) ("cdn/" +:+ objectIdentifier p) config
         = inr (uploadURL r) /\
       GCS.version config = "v4" /\ GCS.action config = "write" /\
       GCS.extensionHeaders config = requiredHeaders r /\
       requiredHeaders r !! "content-length" = Some (pretty (size p)) /\
       requiredHeaders r !! "x-goog-meta-uploaderidentitykey" = Some (uploaderIdentityKey p) /\
       formFields r = None) /\
  (forall r, S3.generateUploadURL sw sself p = inr r ->
     exists options fields,
       S3.createPresignedPost sw options = inr (uploadURL r, fields) /\
       S3.Bucket options = S3.bucketName sself /\
       S3.Key options = "cdn/" +:+ objectIdentifier p /\
       S3.ContentLengthRange (size p) (size p) ∈ S3.Conditions options /\
       S3.Fields options !! "x-amz-meta-uploaderidentitykey" = Some (uploaderIdentityKey p) /\
       formFields r = Some fields /\
       requiredHeaders r = {[ "content-type" := "multipart/form-data" ]}).
Proof.
  split.
  - intros r Hr.
    apply GCS_generateUploadURL_inv in Hr as (customTime & _ & Hsign & Hh & Hf).
    exists (GCS.uploadConfig gw p customTime).
    split; [exact Hsign|]. split; [reflexivity|]. split; [reflexivity|].
    split; [now rewrite Hh|]. rewrite Hh. unfold GCS.uploadHeaders.
    split; [now simplify_map_eq|]. split; [now simplify_map_eq|exact Hf].
  - intros r. unfold S3.generateUploadURL.
    destruct (JS.toISOString _) as [customTime|]; [|discriminate].
    destruct (S3.createPresignedPost sw _) as [e|[url fields]] eqn:Hsign; [discriminate|].
    intros [= <-]. exists (S3.uploadOptions sself p customTime), fields.
    cbn [uploadURL formFields requiredHeaders].
    split; [exact Hsign|]. split; [reflexivity|]. split; [reflexivity|].
    split; [left|]. split; [cbn; now simplify_map_eq|]. split; reflexivity.
Qed.

Lemma toISOString_range (t : Z) :
  (JS.toISOString t = None <-> 8640000000000000 < Z.abs t) /\
  (Z.abs t <= 8640000000000000 -> JS.toISOString t = Some (JS.iso_text (JS.utc_of_time t))).
Proof.
  unfold JS.toISOString. rewrite Z.gtb_ltb.
  destruct (Z.ltb_spec 8640000000000000 (Z.abs t)) as [Hlt|Hge].
  - split; [tauto|lia].
  - split; [|reflexivity]. split; [discriminate|lia].
Qed.

(** X10.  No grant is issued for an expiry whose custom time is outside the
    range of [Date]: when the requested expiry is below -8640000000300 or
    above 8639999999700 seconds, both providers throw (the RangeError of
    [toISOString]) before the signer is asked.  Inside that range the only
    error either provider can throw is the signer's own. *)
Theorem generateUploadURL_time_range (gw : GCS.world) (gself : GCS.instance)
    (sw : S3.world) (sself : S3.instance) (p : UploadParams) :
  (expiryTime p < -8640000000300 \/ 8639999999700 < expiryTime p ->
   GCS.generateUploadURL gw gself p = inl GCS.InvalidTime /\
   S3.generateUploadURL sw sself p = inl S3.InvalidTime) /\
  (-8640000000300 <= expiryTime p <= 8639999999700 ->
   let customTime := JS.iso_text (JS.utc_of_time ((expiryTime p + 300) * 1000)) in
   (forall e, GCS.generateUploadURL gw gself p = inl e ->
      GCS.getSignedUrl gw (GCS.bucketName gself) ("cdn/" +:+ objectIdentifier p)
        (GCS.uploadConfig gw p customTime) = inl e) /\
   (forall e, S3.generateUploadURL sw sself p = inl e ->
      S3.createPresignedPost sw (S3.uploadOptions sself p customTime) = inl e)).
Proof.
  destruct (toISOString_range ((expiryTime p + 300) * 1000)) as [Hnone Hsome].
  split.
  - intros Hout.
    assert (Hiso : JS.toISOString ((expiryTime p + 300) * 1000) = None) by (apply Hnone; lia).
    unfold GCS.generateUploadURL, S3.generateUploadURL. now rewrite Hiso.
  - intros Hin. cbv zeta.
    assert (Hiso : JS.toISOString ((expiryTime p + 300) * 1000)
                   = Some (JS.iso_text (JS.utc_of_time ((expiryTime p + 300) * 1000))))
      by (apply Hsome; lia).
    unfold GCS.generateUploadURL, S3.generateUploadURL. rewrite Hiso. split.
    + intros e. destruct (GCS.getSignedUrl gw _ _ _); [now intros [= <-]|discriminate].
    + intros e. destruct (S3.createPresignedPost sw _) as [e'|[url fs]];
        [now intros [= <-]|discriminate].
Qed.

(** X11.  The header-signed draft of the S3 provider and the form-field
    version bind the same things.  For the same parameters, when both issue a
    grant: the draft presigns a PutObject for the key and bucket of the
    policy, with a content length equal to both ends of the policy's
    [content-length-range] and for the same 604800 seconds; and every form
    field the policy is signed with is a header the draft requires of the
    client, with the same value. *)
Theorem S3_draft_binds_the_same (dw : S3Draft.world) (sw : S3.world) (self : S3.instance)
    (p : UploadParams) (rd rf : UploadResponse) :
  S3Draft.generateUploadURL dw self p = inr rd ->
  S3.generateUploadURL sw self p = inr rf ->
  exists command options fields,
    S3Draft.getSignedUrl dw command (S3.Expires options) = inr (uploadURL rd) /\
    S3.createPresignedPost sw options = inr (uploadURL rf, fields) /\
    S3.Expires options = 604800 /\
    S3Draft.Bucket command = S3.Bucket options /\
    S3Draft.Key command = S3.Key options /\
    S3.ContentLengthRange (S3Draft.ContentLength command) (S3Draft.ContentLength command)
      ∈ S3.Conditions options /\
    (forall k v, S3.Fields options !! k = Some v -> requiredHeaders rd !! k = Some v) /\
    (forall name v, S3Draft.Metadata command !! name = Some v ->
                    requiredHeaders rd !! ("x-amz-meta-" +:+ name) = Some v).
Proof.
  intros Hd Hf.
  apply S3_generateUploadURL_inv in Hf as (customTime & fields & Hiso & Hsign & _).
  unfold S3Draft.generateUploadURL in Hd. rewrite Hiso in Hd.
  destruct (S3Draft.getSignedUrl dw _ _) as [e|url] eqn:Hdsign; [discriminate|].
  injection Hd as <-.
  exists (S3Draft.putCommand self p customTime), (S3.uploadOptions self p customTime), fields.
  split; [exact Hdsign|]. split; [exact Hsign|].
  split; [reflexivity|]. split; [reflexivity|]. split; [reflexivity|].
  split; [left|]. cbn. unfold S3Draft.requiredHeaders. split.
  - intros k v Hk.
    destruct (decide (k = "x-amz-meta-uploaderidentitykey")) as [->|Hk1];
      [simplify_map_eq; reflexivity|].
    destruct (decide (k = "x-amz-meta-customtime")) as [->|Hk2];
      [simplify_map_eq; reflexivity|].
    simplify_map_eq.
  - intros name v Hn.
    destruct (decide (name = "uploaderidentitykey")) as [->|Hn1];
      [simplify_map_eq; reflexivity|].
    destruct (decide (name = "customtime")) as [->|Hn2];
      [simplify_map_eq; reflexivity|].
    simplify_map_eq.
Qed.

End GrantFacts.

Example S3Draft_grant_scenario :
  S3Draft.generateUploadURL UploadFixtures.draft_world ProviderFixtures.s3_self
    ProviderFixtures.params = inr UploadFixtures.draft_grant.
Proof. vm_compute. reflexivity. Qed.

(** X11, witness: the grant of the scenario under both versions. *)
Lemma S3_draft_binds_the_same_witness :
  exists command options fields,
    S3Draft.getSignedUrl UploadFixtures.draft_world command (S3.Expires options)
      = inr (StorageTypes.uploadURL UploadFixtures.draft_grant) /\
    S3.createPresignedPost ProviderFixtures.s3_world options
      = inr (StorageTypes.uploadURL UploadFixtures.s3_grant, fields) /\
    S3.Expires options = 604800 /\
    S3Draft.Bucket command = S3.Bucket options /\
    S3Draft.Key command = S3.Key options /\
    S3.ContentLengthRange (S3Draft.ContentLength command) (S3Draft.ContentLength command)
      ∈ S3.Conditions options /\
    (forall k v, S3.Fields options !! k = Some v ->
                 StorageTypes.requiredHeaders UploadFixtures.draft_grant !! k = Some v) /\
    (forall name v, S3Draft.Metadata command !! name = Some v ->
                    StorageTypes.requiredHeaders UploadFixtures.draft_grant
                      !! ("x-amz-meta-" +:+ name) = Some v).
Proof.
  apply (S3_draft_binds_the_same UploadFixtures.draft_world ProviderFixtures.s3_world
           ProviderFixtures.s3_self ProviderFixtures.params).
  - vm_compute. reflexivity.
  - vm_compute. reflexivity.
Defined.

(** ** The factory and the upload function *)

Section FactoryMore.
Import ProviderMore.

Lemma getStorageProvider_result (env : gmap string string) (st st' : Storage.state)
    (p : Storage.StorageProvider) :
  Storage.storageProvider st = None ->
  Storage.getStorageProvider env st = (inr p, st') ->
  Storage.identity p = Storage.allocated st /\
  Storage.allocated st' = S (Storage.allocated st) /\
  Storage.storageProvider st' = Some p /\
  Upload.getProviderName p = StorageSpec.providerType env.
Proof.
  intros Hnone. rewrite (getStorageProvider_first env st Hnone).
  destruct (String.eqb_spec (StorageSpec.providerType env) "gcs") as [Hg|Hg].
  - destruct (GCS.new env); [discriminate|]. unfold Storage.install.
    intros [= <- <-]. now rewrite Hg.
  - destruct (String.eqb_spec (StorageSpec.providerType env) "aws") as [Ha|Ha]; [|discriminate].
    destruct (S3.new env); [discriminate|]. unfold Storage.install.
    intros [= <- <-]. now rewrite Ha.
Qed.

(** The provider kept in a reachable state was built before: its identity is
    below the number of objects built. *)
Lemma reachable_identity (st : Storage.state) :
  reachable st ->
  forall p, Storage.storageProvider st = Some p -> (Storage.identity p < Storage.allocated st)%nat.
Proof.
  intros Hr. induction Hr as [|env st Hr IH|st Hr IH]; intros p Hp.
  - discriminate Hp.
  - destruct (Storage.storageProvider st) as [q|] eqn:Hst.
    + rewrite (getStorageProvider_cached env st q Hst) in Hp |- *. cbn in *.
      apply IH. congruence.
    + destruct (Storage.getStorageProvider env st) as [[e|q] st'] eqn:Hget.
      * cbn in *. unfold Storage.getStorageProvider in Hget. rewrite Hst in Hget.
        destruct (String.eqb _ "gcs").
        { destruct (GCS.new env); [|discriminate Hget]. injection Hget as _ <-. congruence. }
        destruct (String.eqb _ "aws").
        { destruct (S3.new env); [|discriminate Hget]. injection Hget as _ <-. congruence. }
        injection Hget as _ <-. congruence.
      * destruct (getStorageProvider_result env st st' q Hst Hget) as (Hid & Halloc & Hkept & _).
        cbn in *. rewrite Hkept in Hp. injection Hp as <-. lia.
  - discriminate Hp.
Qed.

(** X12.  The provider object answers to the name of the normalized setting:
    the provider a first call of [getStorageProvider] constructs reports
    [getProviderName() = (STORAGE_PROVIDER || 'gcs').toLowerCase()], which is
    then [gcs] or [aws]. *)
Theorem getProviderName_is_the_setting (env : gmap string string) (st st' : Storage.state)
    (p : Storage.StorageProvider) :
  Storage.storageProvider st = None ->
  Storage.getStorageProvider env st = (inr p, st') ->
  Upload.getProviderName p = JS.toLowerCase (JS.or_else (env !! "STORAGE_PROVIDER") "gcs") /\
  (Upload.getProviderName p = "gcs" /\ Storage.is_gcs p = true \/
   Upload.getProviderName p = "aws" /\ Storage.is_s3 p = true).
Proof.
  intros Hnone Hget.
  destruct (getStorageProvider_result env st st' p Hnone Hget) as (_ & _ & _ & Hname).
  split; [exact Hname|].
  unfold Upload.getProviderName, Storage.is_gcs, Storage.is_s3.
  destruct (Storage.impl p); [left|right]; split; reflexivity.
Qed.

(** X13.  [resetStorageProvider] makes the factory start over: from any state
    the module can reach, the call after a reset reads the environment of that
    moment, constructs a provider for it and returns an object that is not the
    one returned before the reset; that new object is then the one every later
    call returns. *)
Theorem resetStorageProvider_starts_over (st st' : Storage.state) (env : gmap string string)
    (p p' : Storage.StorageProvider) :
  reachable st ->
  Storage.storageProvider st = Some p ->
  Storage.getStorageProvider env (Storage.resetStorageProvider st) = (inr p', st') ->
  Storage.identity p' <> Storage.identity p /\
  Upload.getProviderName p' = JS.toLowerCase (JS.or_else (env !! "STORAGE_PROVIDER") "gcs") /\
  (forall env', Storage.getStorageProvider env' st' = (inr p', st')) /\
  reachable st'.
Proof.
  intros Hreach Hp Hget.
  pose proof (reachable_identity st Hreach p Hp) as Hlt.
  destruct (getStorageProvider_result env (Storage.resetStorageProvider st) st' p' eq_refl Hget)
    as (Hid & _ & Hkept & Hname).
  cbn in Hid. split; [lia|]. split; [exact Hname|]. split.
  - intros env'. now apply getStorageProvider_cached.
  - replace st' with (Storage.getStorageProvider env (Storage.resetStorageProvider st)).2
      by now rewrite Hget.
    now repeat constructor.
Qed.

(** X14.  The upload function.  In development mode it returns the pretend
    address with no required headers and leaves the factory untouched, its
    environment unread.  Otherwise it issues the grant of the active provider,
    and the shape of the grant tells which: form fields are present exactly
    when the provider is the S3 provider, and absent exactly when it is the
    GCS provider; an error of the factory or of the provider is thrown. *)
Theorem upload_grant_shape (env : gmap string string) (gw : GCS.world) (sw : S3.world)
    (params : StorageTypes.UploadParams) (st : Storage.state) :
  (env !! "NODE_ENV" = Some "development" ->
   Upload.upload env gw sw params st = (inr Upload.devUploadFunction, st)) /\
  (env !! "NODE_ENV" <> Some "development" ->
   Upload.upload env gw sw params st = Upload.prodUploadFunction env gw sw params st) /\
  (forall r st', Upload.prodUploadFunction env gw sw params st = (inr r, st') ->
     exists storage,
       Storage.getStorageProvider env st = (inr storage, st') /\
       (is_Some (StorageTypes.formFields r) <-> Storage.is_s3 storage = true) /\
       (StorageTypes.formFields r = None <-> Storage.is_gcs storage = true) /\
       StorageTypes.requiredHeaders r <> ∅).
Proof.
  split; [|split].
  - unfold Upload.upload. now intros ->.
  - unfold Upload.upload. intros Hmode.
    destruct (env !! "NODE_ENV") as [mode|]; [|reflexivity].
    destruct (String.eqb_spec mode "development") as [->|_]; [contradiction|reflexivity].
  - intros r st'. unfold Upload.prodUploadFunction.
    destruct (Storage.getStorageProvider env st) as [[e|storage] st1]; [discriminate|].
    unfold Upload.generateUploadURL, Storage.is_s3, Storage.is_gcs.
    destruct (Storage.impl storage) as [self|self] eqn:Himpl.
    + destruct (GCS.generateUploadURL gw self params) as [e|r1] eqn:Hgrant; [discriminate|].
      intros [= <- <-]. exists storage. rewrite Himpl. split; [reflexivity|].
      apply GCS_generateUploadURL_inv in Hgrant as (customTime & _ & _ & Hh & Hf).
      rewrite Hf, Hh. split; [|split].
      * split; [intros [x Hx]; discriminate Hx|discriminate].
      * tauto.
      * unfold GCS.uploadHeaders. intros Hempty.
        assert (Hl : ({[ "content-length" := pretty (StorageTypes.size params);
                         "x-goog-meta-uploaderidentitykey" :=
                           StorageTypes.uploaderIdentityKey params;
                         "x-goog-custom-time" := customTime ]} : gmap string string)
                     !! "content-length" = None) by (rewrite Hempty; apply lookup_empty).
        simplify_map_eq.
    + unfold S3.generateUploadURL.
      destruct (JS.toISOString _) as [customTime|]; [|discriminate].
      destruct (S3.createPresignedPost sw _) as [e|[url fields]]; [discriminate|].
      intros [= <- <-]. exists storage. rewrite Himpl. split; [reflexivity|]. cbn.
      split; [|split].
      * split; [reflexivity|eauto].
      * split; discriminate.
      * intros Hempty.
        assert (Hl : ({[ "content-type" := "multipart/form-data" ]} : gmap string string)
                     !! "content-type" = None) by (rewrite Hempty; apply lookup_empty).
        simplify_map_eq.
Qed.

End FactoryMore.

Example upload_development :
  Upload.upload {[ "NODE_ENV" := "development" ]} (ProviderFixtures.gcs_world 0)
    ProviderFixtures.s3_world ProviderFixtures.params Storage.initial
  = (inr Upload.devUploadFunction, Storage.initial).
Proof. reflexivity. Qed.

Example upload_production_aws :
  (Upload.upload ProviderFixtures.aws_env (ProviderFixtures.gcs_world 0)
     ProviderFixtures.s3_world ProviderFixtures.params Storage.initial).1
  = inr UploadFixtures.s3_grant.
Proof. vm_compute. reflexivity. Qed.

Example upload_production_unconfigured :
  Upload.upload ∅ (ProviderFixtures.gcs_world 0)
    ProviderFixtures.s3_world ProviderFixtures.params Storage.initial
  = (inl (Upload.FactoryFailed
            (Storage.GCSFailed
               (GCS.MissingEnvironment
                  "Missing required Google Cloud Storage environment variables."))),
     Storage.initial).
Proof. vm_compute. reflexivity. Qed.

(** X12, witness: the first call under [STORAGE_PROVIDER=AWS]. *)
Lemma getProviderName_is_the_setting_witness :
  let env := ProviderFixtures.aws_env in
  let p := UploadFixtures.s3_provider in
  Upload.getProviderName p = JS.toLowerCase (JS.or_else (env !! "STORAGE_PROVIDER") "gcs") /\
  (Upload.getProviderName p = "gcs" /\ Storage.is_gcs p = true \/
   Upload.getProviderName p = "aws" /\ Storage.is_s3 p = true).
Proof.
  apply (getProviderName_is_the_setting ProviderFixtures.aws_env Storage.initial
           UploadFixtures.s3_state UploadFixtures.s3_provider).
  - reflexivity.
  - vm_compute. reflexivity.
Defined.

(** X13, witness: a GCS provider, a reset, then a call under
    [STORAGE_PROVIDER=AWS]. *)
Lemma resetStorageProvider_starts_over_witness :
  let st := (Storage.getStorageProvider ProviderFixtures.gcs_env Storage.initial).2 in
  let p' := {| Storage.identity := 1;
               Storage.impl := Storage.S3StorageProvider ProviderFixtures.s3_self |} in
  let st' := {| Storage.storageProvider := Some p'; Storage.allocated := 2 |} in
  Storage.identity p' <> 0%nat /\
  Upload.getProviderName p' =
    JS.toLowerCase (JS.or_else (ProviderFixtures.aws_env !! "STORAGE_PROVIDER") "gcs") /\
  (forall env', Storage.getStorageProvider env' st' = (inr p', st')) /\
  ProviderMore.reachable st'.
Proof.
  apply (resetStorageProvider_starts_over
           (Storage.getStorageProvider ProviderFixtures.gcs_env Storage.initial).2
           _ ProviderFixtures.aws_env
           {| Storage.identity := 0;
              Storage.impl := Storage.GCSStorageProvider ProviderFixtures.gcs_self |}).
  - repeat constructor.
  - vm_compute. reflexivity.
  - vm_compute. reflexivity.
Defined.

(** ** Updating metadata twice *)

Section UpdateTwice.
Import ProviderMore.

Lemma setCustomTime_union (metadata : S3.patch) (m base : gmap string string) :
  S3.setCustomTime metadata (m ∪ base) = S3.setCustomTime metadata m ∪ base.
Proof.
  unfold S3.setCustomTime. destruct (S3.get "customTime" metadata) as [v|]; [|reflexivity].
  destruct (JS.truthy v); [|reflexivity]. apply insert_union_l.
Qed.

Lemma fold_addField_union (metadata : S3.patch) (m base : gmap string string) :
  fold_left S3.addField metadata (m ∪ base) = fold_left S3.addField metadata m ∪ base.
Proof.
  revert m. induction metadata as [|kv rest IH]; intros m; [reflexivity|].
  cbn [fold_left]. rewrite <- IH. f_equal.
  unfold S3.addField. destruct (String.eqb kv.1 "customTime"); [reflexivity|].
  apply insert_union_l.
Qed.

(** The metadata written is what the patch writes by itself, laid over the
    current metadata. *)
Lemma newMetadata_union (current : option (gmap string string)) (metadata : S3.patch) :
  S3.newMetadata current metadata = S3.newMetadata None metadata ∪ default ∅ current.
Proof.
  unfold S3.newMetadata. cbn [default].
  rewrite <- fold_addField_union, <- setCustomTime_union. now rewrite (left_id ∅ (∪)).
Qed.

(** X22.  The metadata the S3 provider's [updateObjectMetadata] writes is what
    the patch writes by itself, laid over the current metadata of the object.
    So the update can be repeated: with the object as the first copy left it,
    the second update sends the very same copy command, and the metadata does
    not change any more. *)
Theorem updateObjectMetadata_idempotent (self : S3.instance) (objectKey : string)
    (currentObject : S3.HeadObjectOutput) (metadata : S3.patch) (modified : option Z) :
  let command := S3.copyCommand self objectKey currentObject metadata in
  S3.copy_Metadata command
    = S3.newMetadata None metadata ∪ default ∅ (S3.Metadata currentObject) /\
  S3.copyCommand self objectKey (after_copy currentObject command modified) metadata
    = command /\
  (forall w,
     S3.headObject w (S3.bucketName self) objectKey
       = inr (after_copy currentObject command modified) ->
     S3.updateObjectMetadata w self objectKey metadata = S3.copyObject w command).
Proof.
  intros command.
  assert (Htwice : S3.copyCommand self objectKey (after_copy currentObject command modified)
                     metadata = command).
  { subst command. unfold S3.copyCommand, after_copy.
    cbn [S3.Metadata S3.ContentType S3.copy_Metadata S3.copy_ContentType]. f_equal.
    rewrite (newMetadata_union (Some _)). cbn [default]. unfold id.
    rewrite (newMetadata_union (S3.Metadata currentObject)).
    rewrite (assoc_L (∪)). now rewrite (idemp_L (∪)). }
  split; [apply newMetadata_union|]. split; [exact Htwice|].
  intros w Hhead. unfold S3.updateObjectMetadata. rewrite Hhead. now rewrite Htwice.
Qed.

End UpdateTwice.

(** A repeated update of the expiry of [cdn/file-1]. *)
Example updateObjectMetadata_twice :
  let patch := [ ("customTime", "2024-02-01T00:00:00.000Z"); ("Owner", "me") ] in
  let once := S3.newMetadata (Some {[ "uploaderidentitykey" := "02ab" ]}) patch in
  once = {[ "customtime" := "2024-02-01T00:00:00.000Z"; "owner" := "me";
            "uploaderidentitykey" := "02ab" ]} /\
  S3.newMetadata (Some once) patch = once.
Proof. split; vm_compute; reflexivity. Qed.

(** ** The ingestion pipeline: what is registered *)

Section HandlerMoreFacts.
Import EventHandler HandlerSpec HandlerMore.
Local Open Scope handler_scope.
Variable w : world.

Lemma append_cons (c : ascii) (s t : string) : String c s +:+ t = String c (s +:+ t).
Proof. reflexivity. Qed.

Lemma append_empty (s : string) : s +:+ "" = s.
Proof. induction s as [|a s IH]; [reflexivity|]. now rewrite append_cons, IH. Qed.

Lemma append_char (cur rest : string) (c : ascii) :
  (cur +:+ String c "") +:+ rest = cur +:+ String c rest.
Proof. induction cur as [|a cur IH]; [reflexivity|]. now rewrite !append_cons, IH. Qed.

Lemma has_slash_append (a b : string) :
  has_slash (a +:+ b) = has_slash a || has_slash b.
Proof.
  induction a as [|c a IH]; [reflexivity|].
  rewrite append_cons. cbn [has_slash]. rewrite IH. apply orb_assoc.
Qed.

Lemma last_segment_no_slash (cur s : string) :
  has_slash s = false -> JS.last_segment_from cur s = cur +:+ s.
Proof.
  revert cur. induction s as [|c rest IH]; intros cur Hs; cbn [JS.last_segment_from].
  - symmetry. apply append_empty.
  - cbn in Hs. apply orb_false_elim in Hs as [Hc Hrest]. rewrite Hc.
    rewrite (IH _ Hrest). apply append_char.
Qed.

Lemma last_segment_has_no_slash (cur s : string) :
  has_slash cur = false -> has_slash (JS.last_segment_from cur s) = false.
Proof.
  revert cur. induction s as [|c rest IH]; intros cur Hcur; cbn [JS.last_segment_from];
    [exact Hcur|].
  destruct (Ascii.eqb c "/") eqn:Hc; [now apply IH|].
  apply IH. rewrite has_slash_append, Hcur. cbn. now rewrite Hc.
Qed.

Lemma last_segment_after_slash (cur a b : string) :
  JS.last_segment_from cur (a +:+ "/" +:+ b) = JS.last_segment_from "" b.
Proof.
  revert cur. induction a as [|c a IH]; intros cur; [reflexivity|].
  rewrite append_cons.
  cbn [JS.last_segment_from]. destruct (Ascii.eqb c "/"); apply IH.
Qed.

(** X15.  The object identifier the handler registers is the text of the
    storage key after its last slash, and it never contains a slash.  For a
    key [cdn/] followed by an identifier, that is the identifier itself exactly
    when the identifier has no slash: only then does [cdn/] followed by the
    registered identifier, the key the resolver asks the store for, name the
    object again. *)
Theorem objectIdentifier_of_key (objectIdentifier : string) :
  (forall key, has_slash (JS.split_slash_pop key) = false) /\
  (forall directory name, has_slash name = false ->
     JS.split_slash_pop (directory +:+ "/" +:+ name) = name) /\
  (JS.split_slash_pop ("cdn/" +:+ objectIdentifier) = objectIdentifier
   <-> has_slash objectIdentifier = false).
Proof.
  split; [|split].
  - intros key. now apply last_segment_has_no_slash.
  - intros directory name Hname. unfold JS.split_slash_pop.
    rewrite last_segment_after_slash. now rewrite last_segment_no_slash.
  - split.
    + intros <-. now apply last_segment_has_no_slash.
    + intros Hid. unfold JS.split_slash_pop.
      change ("cdn/" +:+ objectIdentifier) with ("cdn" +:+ "/" +:+ objectIdentifier).
      rewrite last_segment_after_slash. now rewrite last_segment_no_slash.
Qed.

Lemma requireUploaderIdentityKey_found (metadata : HeadObjectOutput)
    (entries : gmap string string) (owner : string) (s : state) :
  Metadata metadata = Some entries ->
  entries !! "uploaderidentitykey" = Some owner -> owner <> "" ->
  requireUploaderIdentityKey metadata s = (inr owner, s).
Proof.
  intros Hm Ho Hne. unfold requireUploaderIdentityKey. rewrite Hm, Ho.
  destruct owner; [contradiction|reflexivity].
Qed.

Lemma expiryOf_registered (metadata : HeadObjectOutput) (entries : gmap string string)
    (s : state) :
  Metadata metadata = Some entries ->
  expiryOf w metadata s = (inr (registered_expiry w entries (date_now w (trace s))), s).
Proof.
  intros Hm. unfold expiryOf, registered_expiry. rewrite Hm.
  destruct (entries !! "customtime") as [c|]; [|reflexivity].
  destruct (JS.truthy c); reflexivity.
Qed.

(** [processS3Object] when every step succeeds. *)
Lemma processS3Object_success (bucketName objectKey : string)
    (metadata : HeadObjectOutput) (entries : gmap string string) (owner : string)
    (chunks : list string) :
  JS.startsWith "cdn/" objectKey = true ->
  (forall h, s3_head w h bucketName objectKey = inr metadata) ->
  Metadata metadata = Some entries ->
  entries !! "uploaderidentitykey" = Some owner -> owner <> "" ->
  (forall h, s3_get w h bucketName objectKey = inr tt) ->
  (forall h, s3_read w h bucketName objectKey = inr chunks) ->
  (forall h data, http_post w h data = inr tt) ->
  forall s,
    processS3Object w bucketName objectKey s =
      (inr tt,
       {| processedEvents := processedEvents s + 1;
          processingErrors := processingErrors s;
          trace :=
            trace s ++
            [ (HeadObject bucketName objectKey, true);
              (GetObject bucketName objectKey, true);
              (ReadBody bucketName objectKey, true);
              (PostAdvertise
                 {| adminToken := ADMIN_TOKEN w;
                    uhrpUrl := getURLForHash w chunks;
                    uploaderIdentityKey := owner;
                    objectIdentifier := JS.split_slash_pop objectKey;
                    expiryTime :=
                      registered_expiry w entries
                        (date_now w (trace s ++ [(HeadObject bucketName objectKey, true)]));
                    fileSize := ContentLength metadata |}, true) ] |}).
Proof.
  intros Hcdn Hhead Hm Ho Hne Hget Hread Hpost s.
  unfold processS3Object. rewrite Hcdn. cbn [negb].
  unfold try_catch, advertise.
  unfold bind at 1. unfold perform at 1. rewrite Hhead. cbn [succeeded].
  unfold bind at 1. rewrite (requireUploaderIdentityKey_found metadata entries owner _ Hm Ho Hne).
  unfold bind at 1. rewrite (expiryOf_registered metadata entries _ Hm).
  cbn [trace].
  unfold bind at 1. unfold perform at 1. rewrite Hget. cbn [succeeded].
  unfold bind at 1. unfold perform at 1. rewrite Hread. cbn [succeeded].
  unfold bind at 1. unfold perform at 1. rewrite Hpost. cbn [succeeded].
  unfold count_processed. cbn. rewrite <- !app_assoc. reflexivity.
Qed.


(** X16.  When the object lies under [cdn/], its metadata names an uploader
    and the store and the advertise endpoint answer, [processS3Object] makes
    four calls in this order: the metadata fetch, the download, the reading of
    the body, and one registration.  The registration carries the admin token,
    the address of the hash of the bytes read, the uploader's key from the
    metadata, the last segment of the key, the stored length, and as expiry:
    the seconds of the [customtime] entry when it is set and not empty ([NaN]
    when it is not a date, without any error), and 30 days after the clock's
    reading otherwise.  One processed event is counted and no error. *)
Theorem processS3Object_registers (bucketName objectKey : string)
    (metadata : HeadObjectOutput) (entries : gmap string string) (owner : string)
    (chunks : list string) :
  JS.startsWith "cdn/" objectKey = true ->
  (forall h, s3_head w h bucketName objectKey = inr metadata) ->
  Metadata metadata = Some entries ->
  entries !! "uploaderidentitykey" = Some owner -> owner <> "" ->
  (forall h, s3_get w h bucketName objectKey = inr tt) ->
  (forall h, s3_read w h bucketName objectKey = inr chunks) ->
  (forall h data, http_post w h data = inr tt) ->
  forall s,
    processS3Object w bucketName objectKey s =
      (inr tt,
       {| processedEvents := processedEvents s + 1;
          processingErrors := processingErrors s;
          trace :=
            trace s ++
            [ (HeadObject bucketName objectKey, true);
              (GetObject bucketName objectKey, true);
              (ReadBody bucketName objectKey, true);
              (PostAdvertise
                 {| adminToken := ADMIN_TOKEN w;
                    uhrpUrl := getURLForHash w chunks;
                    uploaderIdentityKey := owner;
                    objectIdentifier := JS.split_slash_pop objectKey;
                    expiryTime :=
                      registered_expiry w entries
                        (date_now w (trace s ++ [(HeadObject bucketName objectKey, true)]));
                    fileSize := ContentLength metadata |}, true) ] |}).
Proof. exact (processS3Object_success bucketName objectKey metadata entries owner chunks). Qed.

(** *** From the grant to the registration *)

Lemma round_seconds_of_seconds (seconds : Z) : round_seconds (seconds * 1000) = seconds.
Proof. unfold round_seconds. Z.div_mod_to_equations. lia. Qed.

Lemma truthy_append (a b : string) : JS.truthy (a +:+ b) = JS.truthy a || JS.truthy b.
Proof. destruct a; reflexivity. Qed.

Lemma iso_text_truthy (f : JS.utc_fields) : JS.truthy (JS.iso_text f) = true.
Proof. unfold JS.iso_text. rewrite truthy_append. apply orb_true_r. Qed.

Lemma startsWith_cdn (name : string) : JS.startsWith "cdn/" ("cdn/" +:+ name) = true.
Proof. reflexivity. Qed.

(** X17.  An object uploaded through a grant of the S3 provider is registered
    under the identifier and the uploader of the grant, with the grant's
    custom time as expiry: 300 seconds after the expiry that was requested.
    This needs the identifier to contain no slash and the uploader's key not
    to be empty, the store to keep the form's [x-amz-meta-] fields as metadata
    entries, and [Date] to read the custom time back. *)
Theorem ingestion_registers_the_grant (self : S3.instance)
    (p : StorageTypes.UploadParams) (customTime : string)
    (metadata : HeadObjectOutput) (entries : gmap string string)
    (chunks : list string) (s : state) :
  let options := S3.uploadOptions self p customTime in
  JS.toISOString ((StorageTypes.expiryTime p + 300) * 1000) = Some customTime ->
  has_slash (StorageTypes.objectIdentifier p) = false ->
  StorageTypes.uploaderIdentityKey p <> "" ->
  (forall h, s3_head w h (S3.Bucket options) (S3.Key options) = inr metadata) ->
  Metadata metadata = Some entries ->
  stores_fields (S3.Fields options) entries ->
  date_parse w customTime = Some ((StorageTypes.expiryTime p + 300) * 1000) ->
  (forall h, s3_get w h (S3.Bucket options) (S3.Key options) = inr tt) ->
  (forall h, s3_read w h (S3.Bucket options) (S3.Key options) = inr chunks) ->
  (forall h data, http_post w h data = inr tt) ->
  exists before,
    processS3Object w (S3.Bucket options) (S3.Key options) s =
      (inr tt,
       {| processedEvents := processedEvents s + 1;
          processingErrors := processingErrors s;
          trace :=
            trace s ++ before ++
            [ (PostAdvertise
                 {| adminToken := ADMIN_TOKEN w;
                    uhrpUrl := getURLForHash w chunks;
                    uploaderIdentityKey := StorageTypes.uploaderIdentityKey p;
                    objectIdentifier := StorageTypes.objectIdentifier p;
                    expiryTime := Some (StorageTypes.expiryTime p + 300);
                    fileSize := ContentLength metadata |}, true) ] |}) /\
    posts before = 0%nat.
Proof.
  intros options Hiso Hslash Howner Hhead Hm Hstored Hparse Hget Hread Hpost.
  assert (Ho : entries !! "uploaderidentitykey" = Some (StorageTypes.uploaderIdentityKey p)).
  { apply Hstored. subst options. cbn [S3.Fields S3.uploadOptions]. now simplify_map_eq. }
  assert (Hc : entries !! "customtime" = Some customTime).
  { apply Hstored. subst options. cbn [S3.Fields S3.uploadOptions]. now simplify_map_eq. }
  assert (Htext : JS.truthy customTime = true).
  { apply toISOString_denotes in Hiso as [-> _]. apply iso_text_truthy. }
  exists [ (HeadObject (S3.Bucket options) (S3.Key options), true);
           (GetObject (S3.Bucket options) (S3.Key options), true);
           (ReadBody (S3.Bucket options) (S3.Key options), true) ].
  split; [|reflexivity].
  rewrite (processS3Object_success (S3.Bucket options) (S3.Key options) metadata entries
             (StorageTypes.uploaderIdentityKey p) chunks
             (startsWith_cdn _) Hhead Hm Ho Howner Hget Hread Hpost s).
  unfold registered_expiry. rewrite Hc, Htext, Hparse. cbn [fmap option_fmap option_map].
  rewrite round_seconds_of_seconds.
  assert (Hid : JS.split_slash_pop (S3.Key options) = StorageTypes.objectIdentifier p).
  { subst options. cbn [S3.Key S3.uploadOptions]. unfold JS.split_slash_pop.
    change ("cdn/" +:+ StorageTypes.objectIdentifier p)
      with ("cdn" +:+ "/" +:+ StorageTypes.objectIdentifier p).
    rewrite last_segment_after_slash. now rewrite last_segment_no_slash. }
  rewrite Hid. reflexivity.
Qed.

(** *** The counters *)

Lemma registered_app (a b : list call) :
  registered (a ++ b) = (registered a + registered b)%nat.
Proof. unfold registered. now rewrite List.filter_app, length_app. Qed.

Lemma polls_app (a b : list call) : polls (a ++ b) = (polls a + polls b)%nat.
Proof. unfold polls. now rewrite List.filter_app, length_app. Qed.

Lemma failed_polls_app (a b : list call) :
  failed_polls (a ++ b) = (failed_polls a + failed_polls b)%nat.
Proof. unfold failed_polls. now rewrite List.filter_app, length_app. Qed.

Lemma sleeps_app (a b : list call) : sleeps (a ++ b) = (sleeps a + sleeps b)%nat.
Proof. unfold sleeps. now rewrite List.filter_app, length_app. Qed.

Lemma message_calls_app (a b : list call) :
  message_calls a -> message_calls b -> message_calls (a ++ b).
Proof. unfold message_calls. intros. now apply Forall_app. Qed.

Lemma message_calls_counts (evs : list call) :
  message_calls evs -> polls evs = 0%nat /\ failed_polls evs = 0%nat /\ sleeps evs = 0%nat.
Proof.
  unfold message_calls, polls, failed_polls, sleeps.
  induction 1 as [|c evs [Hr Hs] _ IH]; [auto|].
  cbn [List.filter]. rewrite Hr, Hs. exact IH.
Qed.

Lemma accounts_nil (s : state) : accounts s s [].
Proof. unfold accounts. cbn. rewrite app_nil_r. split; [reflexivity|lia]. Qed.

Lemma accounts_app (s s1 s2 : state) (a b : list call) :
  accounts s s1 a -> accounts s1 s2 b -> accounts s s2 (a ++ b).
Proof.
  unfold accounts. intros [Ht1 Hp1] [Ht2 Hp2]. split.
  - now rewrite Ht2, Ht1, app_assoc.
  - rewrite registered_app. lia.
Qed.

Ltac settle_account :=
  repeat split;
  try (cbv [registered List.filter is_post andb fst snd length]; lia);
  repeat constructor.

(** What [advertise] does to the counters: a processed event is counted
    exactly when the registration returned, and never an error. *)
Lemma advertise_account (bucketName objectKey : string) (s : state) :
  exists evs,
    accounts s (advertise w bucketName objectKey s).2 evs /\
    message_calls evs /\
    processingErrors (advertise w bucketName objectKey s).2 = processingErrors s.
Proof.
  unfold accounts, advertise, bind, perform.
  cbn [fst snd trace processingErrors processedEvents].
  destruct (s3_head w (trace s) bucketName objectKey) as [e|metadata].
  { eexists [_]. cbn. settle_account. }
  cbn [succeeded].
  set (s1 := {| processedEvents := processedEvents s;
                processingErrors := processingErrors s;
                trace := trace s ++ [(HeadObject bucketName objectKey, true)] |}).
  assert (Hkey : (exists k, requireUploaderIdentityKey metadata s1 = (inr k, s1)) \/
                 requireUploaderIdentityKey metadata s1 = (inl MissingUploaderIdentityKey, s1)).
  { unfold requireUploaderIdentityKey.
    destruct (Metadata metadata) as [md|]; [|now right].
    destruct (md !! "uploaderidentitykey") as [k|]; [|now right].
    destruct (JS.truthy k); [left; now exists k|now right]. }
  destruct Hkey as [(k & ->)| ->].
  2:{ eexists [_]. cbn. settle_account. }
  assert (Hexp : exists x, expiryOf w metadata s1 = (inr x, s1)).
  { unfold expiryOf, bind, clock, ret.
    destruct (Metadata metadata) as [md|]; [|eauto].
    destruct (md !! "customtime") as [c|]; [|eauto].
    destruct (JS.truthy c); eauto. }
  destruct Hexp as (x & ->).
  cbn [trace processingErrors processedEvents s1].
  destruct (s3_get w _ bucketName objectKey) as [e|[]].
  { eexists [_; _]. cbn. rewrite <- app_assoc. settle_account. }
  cbn [succeeded trace processingErrors processedEvents].
  destruct (s3_read w _ bucketName objectKey) as [e|chunks].
  { eexists [_; _; _]. cbn. rewrite <- !app_assoc. settle_account. }
  cbn [succeeded trace processingErrors processedEvents].
  destruct (http_post w _ _) as [e|[]].
  { eexists [_; _; _; _]. cbn. rewrite <- !app_assoc. settle_account. }
  eexists [_; _; _; _]. cbn. rewrite <- !app_assoc. settle_account.
Qed.

(** [processS3Object] counts one error exactly when it throws, and it throws
    only for a key under [cdn/]. *)
Lemma processS3Object_account (bucketName objectKey : string) (s : state) :
  exists evs,
    accounts s (processS3Object w bucketName objectKey s).2 evs /\
    message_calls evs /\
    match (processS3Object w bucketName objectKey s).1 with
    | inr _ =>
        processingErrors (processS3Object w bucketName objectKey s).2 = processingErrors s
    | inl _ =>
        processingErrors (processS3Object w bucketName objectKey s).2 = processingErrors s + 1 /\
        JS.startsWith "cdn/" objectKey = true
    end.
Proof.
  unfold processS3Object.
  destruct (JS.startsWith "cdn/" objectKey); cbn [negb].
  - destruct (advertise_account bucketName objectKey s) as (evs & Hacc & Hcalls & Herr).
    exists evs. unfold try_catch.
    destruct (advertise w bucketName objectKey s) as [[e|[]] s'];
      cbn [fst snd bind count_error throw processingErrors] in *.
    + destruct Hacc as [Htrace Hcount]. repeat split; try assumption. lia.
    + auto.
  - exists []. cbn. split; [apply accounts_nil|]. split; [constructor|reflexivity].
Qed.

Lemma processRecord_account (record : S3EventRecord) (s : state) :
  exists evs,
    accounts s (processRecord w record s).2 evs /\
    message_calls evs /\
    match (processRecord w record s).1 with
    | inr _ => processingErrors (processRecord w record s).2 = processingErrors s
    | inl _ =>
        processingErrors (processRecord w record s).2 = processingErrors s \/
        processingErrors (processRecord w record s).2 = processingErrors s + 1 /\
        due w record = true
    end.
Proof.
  unfold processRecord, due.
  destruct (JS.startsWith "ObjectCreated:" (eventName record)); cbn [andb].
  - destruct (decodeURIComponent w _) as [objectKey|].
    + destruct (processS3Object_account (bucket_name record) objectKey s)
        as (evs & Hacc & Hcalls & Hres).
      exists evs. split; [exact Hacc|]. split; [exact Hcalls|].
      destruct (processS3Object w (bucket_name record) objectKey s) as [[e|[]] s'];
        cbn [fst snd] in *; auto.
    + exists []. cbn. split; [apply accounts_nil|]. split; [constructor|now left].
  - exists []. cbn. split; [apply accounts_nil|]. split; [constructor|reflexivity].
Qed.

Lemma processRecords_account (records : list S3EventRecord) (s : state) :
  exists evs,
    accounts s (processRecords w records s).2 evs /\
    message_calls evs /\
    match (processRecords w records s).1 with
    | inr _ => processingErrors (processRecords w records s).2 = processingErrors s
    | inl _ =>
        processingErrors (processRecords w records s).2 = processingErrors s \/
        processingErrors (processRecords w records s).2 = processingErrors s + 1 /\
        some_due w records = true
    end.
Proof.
  revert s. induction records as [|record rest IH]; intros s.
  - exists []. cbn. split; [apply accounts_nil|]. split; [constructor|reflexivity].
  - cbn [processRecords]. unfold bind, some_due. cbn [existsb].
    destruct (processRecord_account record s) as (evs1 & Ha1 & Hc1 & Hr1).
    destruct (processRecord w record s) as [[e|[]] s1]; cbn [fst snd] in *.
    + exists evs1. split; [exact Ha1|]. split; [exact Hc1|].
      destruct Hr1 as [Hr1|[Hr1 ->]]; auto.
    + destruct (IH s1) as (evs2 & Ha2 & Hc2 & Hr2).
      exists (evs1 ++ evs2). split; [now apply (accounts_app s s1)|].
      split; [now apply message_calls_app|].
      destruct (processRecords w rest s1) as [[e|[]] s2]; cbn [fst snd] in *.
      * rewrite Hr1 in Hr2. destruct Hr2 as [Hr2|[Hr2 Hdue]]; [now left|].
        right. split; [exact Hr2|]. unfold some_due in Hdue. rewrite Hdue. apply orb_true_r.
      * congruence.
Qed.

Lemma handleBody_account (m : message) (s : state) :
  exists evs,
    accounts s (handleBody w m s).2 evs /\
    message_calls evs /\
    match (handleBody w m s).1 with
    | inr _ => processingErrors (handleBody w m s).2 = processingErrors s
    | inl _ =>
        processingErrors (handleBody w m s).2 = processingErrors s \/
        processingErrors (handleBody w m s).2 = processingErrors s + 1 /\
        some_due w (records_of m) = true
    end.
Proof.
  unfold handleBody, records_of.
  destruct (parsed m) as [body|].
  - destruct (Records body) as [records|]; cbn [default].
    + apply processRecords_account.
    + exists []. cbn. split; [apply accounts_nil|]. split; [constructor|reflexivity].
  - exists []. cbn. split; [apply accounts_nil|]. split; [constructor|now left].
Qed.

(** The counters over one message. *)
Lemma processMessage_account (m : message) (s : state) :
  exists evs,
    accounts s (processMessage w m s).2 evs /\
    message_calls evs /\
    (processingErrors (processMessage w m s).2 = processingErrors s <->
     (DeleteMessage (ReceiptHandle m), true) ∈ evs) /\
    processingErrors s <= processingErrors (processMessage w m s).2 <= processingErrors s + 2 /\
    (processingErrors (processMessage w m s).2 = processingErrors s + 2 ->
     some_due w (records_of m) = true).
Proof.
  rewrite processMessage_unfold.
  destruct (handleBody_account m s) as (evs & Hacc & Hcalls & Hres).
  destruct (handleBody_log w m s) as (evs' & Htrace' & Hquiet & _).
  assert (evs' = evs) as ->.
  { destruct Hacc as [Htrace _]. rewrite Htrace in Htrace'. now apply app_inv_head in Htrace'. }
  destruct (handleBody w m s) as [[e|[]] s1]; cbn [fst snd] in *.
  - exists evs. cbn [failed processingErrors]. split; [exact Hacc|]. split; [exact Hcalls|].
    split; [|split].
    + split; [lia|]. intros Hin. destruct (quiet_not_delete evs _ Hquiet Hin eq_refl).
    + lia.
    + intros H2. destruct Hres as [Hres|[_ Hdue]]; [lia|exact Hdue].
  - destruct (sqs_delete w (trace s1) (ReceiptHandle m)) as [e|[]]; cbn [snd].
    + exists (evs ++ [(DeleteMessage (ReceiptHandle m), false)]).
      split; [|split; [|split; [|split]]].
      * apply (accounts_app s s1); [exact Hacc|]. split; [reflexivity|cbn; lia].
      * apply message_calls_app; [exact Hcalls|]. repeat constructor.
      * cbn. split; [lia|]. intros Hin. exfalso.
        apply elem_of_app in Hin as [Hin|Hin].
        -- destruct (quiet_not_delete evs _ Hquiet Hin eq_refl).
        -- apply list_elem_of_singleton in Hin. discriminate Hin.
      * cbn. lia.
      * cbn. lia.
    + exists (evs ++ [(DeleteMessage (ReceiptHandle m), true)]).
      split; [|split; [|split; [|split]]].
      * apply (accounts_app s s1); [exact Hacc|]. split; [reflexivity|cbn; lia].
      * apply message_calls_app; [exact Hcalls|]. repeat constructor.
      * cbn. split; [|lia]. intros _. apply elem_of_app. right. now left.
      * cbn. lia.
      * cbn. lia.
Qed.

(** X18.  Over one queue message, the counter of processed events goes up by
    the number of registrations that returned.  The error counter stays as it
    was exactly when the message was deleted from the queue; otherwise it goes
    up by one or by two, and by two only when a record of the message called
    for a registration (a failure inside [processS3Object] is counted there
    and again by [processMessage]).  A body that does not parse costs one
    error and no call. *)
Theorem processMessage_counters (m : message) (s : state) :
  exists evs,
    trace (processMessage w m s).2 = trace s ++ evs /\
    processedEvents (processMessage w m s).2
      = processedEvents s + Z.of_nat (registered evs) /\
    (processingErrors (processMessage w m s).2 = processingErrors s <->
     (DeleteMessage (ReceiptHandle m), true) ∈ evs) /\
    processingErrors s <= processingErrors (processMessage w m s).2 <= processingErrors s + 2 /\
    (processingErrors (processMessage w m s).2 = processingErrors s + 2 ->
     some_due w (records_of m) = true) /\
    (parsed m = None ->
     evs = [] /\ processingErrors (processMessage w m s).2 = processingErrors s + 1).
Proof.
  destruct (processMessage_account m s) as (evs & [Htrace Hcount] & _ & Hzero & Hrange & Htwo).
  exists evs. repeat (split; [assumption|]).
  intros Hparse. rewrite processMessage_unfold in Htrace |- *.
  unfold handleBody in *. rewrite Hparse in *. cbn in Htrace |- *.
  split; [|reflexivity].
  rewrite <- (app_nil_r (trace s)) in Htrace at 1. now apply app_inv_head in Htrace.
Qed.

(** *** The polling loop *)

Lemma batch_account (ms : list message) (s : state) :
  exists evs,
    accounts s (fold_left (fun s' m => (processMessage w m s').2) ms s) evs /\
    message_calls evs /\
    processingErrors s
      <= processingErrors (fold_left (fun s' m => (processMessage w m s').2) ms s).
Proof.
  revert s. induction ms as [|m rest IH]; intros s.
  - exists []. cbn. split; [apply accounts_nil|]. split; [constructor|lia].
  - cbn [fold_left].
    destruct (processMessage_account m s) as (evs1 & Ha1 & Hc1 & _ & Hr1 & _).
    destruct (IH (processMessage w m s).2) as (evs2 & Ha2 & Hc2 & Hr2).
    exists (evs1 ++ evs2). split; [now apply (accounts_app s (processMessage w m s).2)|].
    split; [now apply message_calls_app|lia].
Qed.

Lemma pollOnce_account (s : state) :
  exists evs,
    turn_log evs /\
    accounts s (pollOnce w s).2 evs /\
    processingErrors s + Z.of_nat (failed_polls evs) <= processingErrors (pollOnce w s).2.
Proof.
  unfold pollOnce, try_catch, bind, perform, count_error.
  destruct (sqs_receive w (trace s)) as [e|response]; cbn [succeeded].
  - exists [ (ReceiveMessage, false); (Sleep 5000, true) ]. split; [now right|].
    cbn. rewrite <- app_assoc. split; [split; [reflexivity|cbn; lia]|lia].
  - set (s1 := {| processedEvents := processedEvents s;
                  processingErrors := processingErrors s;
                  trace := trace s ++ [(ReceiveMessage, true)] |}).
    assert (Hs1 : accounts s s1 [(ReceiveMessage, true)]).
    { split; [reflexivity|cbn; lia]. }
    assert (Hnone : exists evs,
              turn_log evs /\ accounts s s1 evs /\
              processingErrors s + Z.of_nat (failed_polls evs) <= processingErrors s1).
    { exists [(ReceiveMessage, true)]. split; [left; exists []; split; [reflexivity|constructor]|].
      split; [exact Hs1|cbn; lia]. }
    destruct response as [[|m ms]|]; [exact Hnone| |exact Hnone].
    rewrite promise_all_processMessage. cbn [snd].
    destruct (batch_account (m :: ms) s1) as (evs & Hacc & Hcalls & Herr).
    exists ((ReceiveMessage, true) :: evs). split; [left; now exists evs|].
    split; [exact (accounts_app s s1 _ [(ReceiveMessage, true)] evs Hs1 Hacc)|].
    destruct (message_calls_counts evs Hcalls) as (_ & Hfailed & _).
    change ((ReceiveMessage, true) :: evs) with ([(ReceiveMessage, true)] ++ evs).
    rewrite failed_polls_app, Hfailed. cbn in *. lia.
Qed.

Lemma turn_log_counts (evs : list call) :
  turn_log evs -> polls evs = 1%nat /\ sleeps evs = failed_polls evs.
Proof.
  intros [(calls & -> & Hcalls)| ->]; [|split; reflexivity].
  destruct (message_calls_counts calls Hcalls) as (Hp & Hf & Hs).
  change ((ReceiveMessage, true) :: calls) with ([(ReceiveMessage, true)] ++ calls).
  rewrite polls_app, sleeps_app, failed_polls_app, Hp, Hf, Hs. split; reflexivity.
Qed.

(** X19.  The polling loop never stops on an exception.  Each of its turns is
    one poll of the queue followed either by the calls made for the messages
    received, or, when the poll threw, by a pause of five seconds and nothing
    else.  Over any number of turns the counter of processed events goes up by
    the number of registrations that returned, and the error counter by at
    least the number of polls that threw. *)
Theorem pollSQS_turns (turns : nat) (s : state) :
  (pollSQS w turns s).1 = inr tt /\
  exists logs,
    length logs = turns /\
    Forall turn_log logs /\
    trace (pollSQS w turns s).2 = trace s ++ concat logs /\
    polls (concat logs) = turns /\
    sleeps (concat logs) = failed_polls (concat logs) /\
    processedEvents (pollSQS w turns s).2
      = processedEvents s + Z.of_nat (registered (concat logs)) /\
    processingErrors s + Z.of_nat (failed_polls (concat logs))
      <= processingErrors (pollSQS w turns s).2.
Proof.
  split; [apply pollSQS_returns|].
  revert s. induction turns as [|n IH]; intros s.
  - exists []. cbn. rewrite app_nil_r. repeat split; try constructor; lia.
  - cbn [pollSQS]. unfold bind.
    destruct (pollOnce_account s) as (evs & Hturn & [Ht1 Hp1] & He1).
    pose proof (pollOnce_returns w s) as Hret.
    destruct (pollOnce w s) as [[e|[]] s1]; cbn [fst snd] in *; [discriminate Hret|].
    destruct (IH s1) as (logs & Hlen & Hall & Ht2 & Hpolls & Hsleeps & Hp2 & He2).
    destruct (turn_log_counts evs Hturn) as [Hone Hpause].
    exists (evs :: logs). cbn [concat length].
    rewrite polls_app, sleeps_app, failed_polls_app, registered_app.
    split; [now rewrite Hlen|]. split; [now constructor|].
    split; [now rewrite Ht2, Ht1, app_assoc|].
    split; [now rewrite Hone, Hpolls|]. split; [now rewrite Hpause, Hsleeps|].
    split; lia.
Qed.

(** *** The first failure ends a message *)

Lemma processRecords_app (pre post : list S3EventRecord) (s s1 : state) :
  processRecords w pre s = (inr tt, s1) ->
  processRecords w (pre ++ post) s = processRecords w post s1.
Proof.
  revert s. induction pre as [|record rest IH]; intros s.
  - now intros [= ->].
  - cbn [app processRecords]. unfold bind.
    destruct (processRecord w record s) as [[e|[]] s']; [discriminate|]. apply IH.
Qed.

(** X20.  The records of a message are processed in order, and the first one
    that throws ends the message: the records after it are not looked at, the
    message is not deleted from the queue, and [processMessage] counts one
    more error and returns.  What the records before it did stands: their
    registrations were made and counted, although the message stays in the
    queue. *)
Theorem processMessage_stops_at_first_failure (pre post : list S3EventRecord)
    (record : S3EventRecord) (handle : string) (e : error) (s s1 s2 : state) :
  processRecords w pre s = (inr tt, s1) ->
  processRecord w record s1 = (inl e, s2) ->
  processRecords w (pre ++ record :: post) s = (inl e, s2) /\
  processMessage w
    {| parsed := Some {| Records := Some (pre ++ record :: post) |};
       ReceiptHandle := handle |} s
  = (inr tt, failed s2) /\
  exists evs,
    trace s2 = trace s ++ evs /\ quiet evs /\
    processedEvents s2 = processedEvents s + Z.of_nat (registered evs) /\
    (posts evs >= length (List.filter (due w) pre))%nat.
Proof.
  intros Hpre Hrecord.
  assert (Hall : processRecords w (pre ++ record :: post) s = (inl e, s2)).
  { rewrite (processRecords_app pre (record :: post) s s1 Hpre).
    cbn [processRecords]. unfold bind. now rewrite Hrecord. }
  split; [exact Hall|]. split.
  { rewrite processMessage_unfold. cbn [handleBody parsed Records]. unfold handleBody.
    cbn [parsed Records]. now rewrite Hall. }
  destruct (processRecords_log w pre s) as (evs1 & Ht1 & Hq1 & Hr1).
  destruct (processRecords_account pre s) as (evs1' & [Ht1' Hp1] & _).
  rewrite Hpre in Ht1, Hr1, Ht1', Hp1. cbn [fst snd] in *.
  assert (evs1' = evs1) as ->.
  { rewrite Ht1 in Ht1'. now apply app_inv_head in Ht1'. }
  destruct Hr1 as (_ & Hposts & _).
  destruct (processRecord_log w record s1) as (evs2 & Ht2 & Hq2 & _).
  destruct (processRecord_account record s1) as (evs2' & [Ht2' Hp2] & _).
  rewrite Hrecord in Ht2, Ht2', Hp2. cbn [fst snd] in *.
  assert (evs2' = evs2) as ->.
  { rewrite Ht2 in Ht2'. now apply app_inv_head in Ht2'. }
  exists (evs1 ++ evs2). split; [now rewrite Ht2, Ht1, app_assoc|].
  split; [now apply quiet_app|]. rewrite registered_app, posts_app. split; lia.
Qed.

(** *** The manual notification endpoint *)

(** X21.  The [/notify] endpoint answers 500 with a TypeError, without
    touching a counter or making a call, when the request has no body or no
    key.  For a key outside [cdn/] it answers with success and does nothing.
    In every case it makes no call to the queue, it counts a processed event
    for each registration that returned, and it counts an error exactly when
    [processS3Object] threw. *)
Theorem notify_outcomes (req : option Notify.body) (s : state) :
  ((req = None \/ exists b, req = Some b /\ Notify.key b = None) ->
   Notify.notify w req s = (Notify.InternalServerError Notify.TypeError, s)) /\
  (forall b objectKey,
     req = Some b -> Notify.key b = Some objectKey ->
     JS.startsWith "cdn/" objectKey = false ->
     Notify.notify w req s = (Notify.Success, s)) /\
  exists evs,
    accounts s (Notify.notify w req s).2 evs /\
    quiet evs /\ message_calls evs /\
    (processingErrors (Notify.notify w req s).2 =
       processingErrors s +
       match (Notify.notify w req s).1 with
       | Notify.InternalServerError (Notify.Thrown _) => 1
       | _ => 0
       end).
Proof.
  split; [|split].
  - intros [->|(b & -> & Hkey)]; [reflexivity|]. unfold Notify.notify. now rewrite Hkey.
  - intros b objectKey -> Hkey Hcdn. unfold Notify.notify. rewrite Hkey.
    now rewrite (processS3Object_skips w _ _ _ Hcdn).
  - unfold Notify.notify.
    assert (Hnothing : exists evs,
              accounts s s evs /\ quiet evs /\ message_calls evs /\
              processingErrors s = processingErrors s + 0).
    { exists []. split; [apply accounts_nil|]. repeat split; try constructor. lia. }
    destruct req as [b|]; [|exact Hnothing].
    destruct (Notify.key b) as [objectKey|]; [|exact Hnothing].
    destruct (processS3Object_account (Notify.bucket b) objectKey s)
      as (evs & Hacc & Hcalls & Hres).
    destruct (processS3Object_log w (Notify.bucket b) objectKey s) as (evs' & Ht' & Hquiet & _).
    assert (evs' = evs) as ->.
    { destruct Hacc as [Ht _]. rewrite Ht in Ht'. now apply app_inv_head in Ht'. }
    exists evs.
    destruct (processS3Object w (Notify.bucket b) objectKey s) as [[e|[]] s'];
      cbn [fst snd] in *.
    + destruct Hres as [Herr _]. auto.
    + repeat split; try assumption; try apply Hacc. lia.
Qed.

End HandlerMoreFacts.

(** *** Scenarios *)

(** X16, witness: the object [cdn/file-1] of the fixture bucket. *)
Lemma processS3Object_registers_witness :
  EventHandler.processS3Object (HandlerFixtures.handler_world true) "bucket-2" "cdn/file-1"
    HandlerFixtures.start
  = (inr tt,
     {| EventHandler.processedEvents := 1;
        EventHandler.processingErrors := 0;
        EventHandler.trace :=
          [ (EventHandler.HeadObject "bucket-2" "cdn/file-1", true);
            (EventHandler.GetObject "bucket-2" "cdn/file-1", true);
            (EventHandler.ReadBody "bucket-2" "cdn/file-1", true);
            (EventHandler.PostAdvertise HandlerFixtures.registration, true) ] |}).
Proof.
  rewrite (processS3Object_registers (HandlerFixtures.handler_world true)
             "bucket-2" "cdn/file-1" (HandlerFixtures.head_of "cdn/file-1")
             {[ "uploaderidentitykey" := "02ab"; "customtime" := "2023-11-14T23:18:20.000Z" ]}
             "02ab" [ "bytes" ]).
  - vm_compute. reflexivity.
  - reflexivity.
  - reflexivity.
  - reflexivity.
  - vm_compute. reflexivity.
  - discriminate.
  - reflexivity.
  - reflexivity.
  - reflexivity.
Defined.

(** X17, witness: the grant of the specification's scenario, expiring at
    1700003600, is registered with the expiry 1700003900. *)
Lemma ingestion_registers_the_grant_witness :
  exists before,
    EventHandler.processS3Object (HandlerFixtures.handler_world true) "bucket-2" "cdn/file-1"
      HandlerFixtures.start
    = (inr tt,
       {| EventHandler.processedEvents := 1;
          EventHandler.processingErrors := 0;
          EventHandler.trace :=
            before ++
            [ (EventHandler.PostAdvertise
                 {| EventHandler.adminToken := Some "token";
                    EventHandler.uhrpUrl := "uhrp:bytes";
                    EventHandler.uploaderIdentityKey := "02ab";
                    EventHandler.objectIdentifier := "file-1";
                    EventHandler.expiryTime := Some (1700003600 + 300);
                    EventHandler.fileSize := Some 1024 |}, true) ] |}) /\
    HandlerSpec.posts before = 0%nat.
Proof.
  apply (ingestion_registers_the_grant (HandlerFixtures.handler_world true)
           ProviderFixtures.s3_self ProviderFixtures.params "2023-11-14T23:18:20.000Z"
           (HandlerFixtures.head_of "cdn/file-1")
           {[ "uploaderidentitykey" := "02ab"; "customtime" := "2023-11-14T23:18:20.000Z" ]}
           [ "bytes" ] HandlerFixtures.start).
  - vm_compute. reflexivity.
  - reflexivity.
  - discriminate.
  - reflexivity.
  - reflexivity.
  - intros name value Hfield. cbn [S3.Fields S3.uploadOptions] in Hfield.
    apply lookup_insert_Some in Hfield as [[Hname <-]|[_ Hfield]].
    + vm_compute in Hname. injection Hname as <-. vm_compute. reflexivity.
    + apply lookup_singleton_Some in Hfield as [Hname <-].
      vm_compute in Hname. injection Hname as <-. vm_compute. reflexivity.
  - reflexivity.
  - reflexivity.
  - reflexivity.
  - reflexivity.
Defined.

(** X20, witness: a message with three records, the second of an object
    without an uploader.  The first object is registered, the third is never
    fetched, and two errors are counted. *)
Lemma processMessage_stops_at_first_failure_witness :
  let w := HandlerFixtures.handler_world true in
  let pre := [ HandlerFixtures.created "cdn/file-1" ] in
  let record := HandlerFixtures.created "cdn/orphan" in
  let post := [ HandlerFixtures.created "cdn/file-2" ] in
  let s1 := (EventHandler.processRecords w pre HandlerFixtures.start).2 in
  let s2 := (EventHandler.processRecord w record s1).2 in
  (EventHandler.processedEvents s2 = 1 /\ EventHandler.processingErrors s2 = 1 /\
   HandlerSpec.posts (EventHandler.trace s2) = 1%nat) /\
  EventHandler.processRecords w (pre ++ record :: post) HandlerFixtures.start
    = (inl EventHandler.MissingUploaderIdentityKey, s2) /\
  EventHandler.processMessage w
    {| EventHandler.parsed :=
         Some {| EventHandler.Records := Some (pre ++ record :: post) |};
       EventHandler.ReceiptHandle := "receipt-1" |} HandlerFixtures.start
  = (inr tt, HandlerSpec.failed s2) /\
  exists evs,
    EventHandler.trace s2 = EventHandler.trace HandlerFixtures.start ++ evs /\
    HandlerSpec.quiet evs /\
    EventHandler.processedEvents s2
      = EventHandler.processedEvents HandlerFixtures.start
        + Z.of_nat (HandlerMore.registered evs) /\
    (HandlerSpec.posts evs
     >= length (List.filter (HandlerSpec.due w) pre))%nat.
Proof.
  intros w pre record post s1 s2.
  split; [vm_compute; auto|].
  apply (processMessage_stops_at_first_failure w pre post record "receipt-1"
           EventHandler.MissingUploaderIdentityKey HandlerFixtures.start s1 s2).
  - vm_compute. reflexivity.
  - vm_compute. reflexivity.
Defined.
